(** * Record endpoints of the CRM backend: list, create, update, notes

    A shallow embedding of [src/controllers/recordController.js] and of the
    mounted variant of the same controller ([src/unnamed/part_000]).

    The handlers are translated into a small state-and-exception monad over
    a [World] that holds the two collections, the process-local cache, the
    clock, the log of the store calls a handler issued and an oracle that
    tells which store call rejects.  The document store, the validation
    library and the cache are libraries of the program: they are modelled
    by their documented behaviour, and what the program cannot know of them
    (the regular-expression engine, the email and URI grammars, the string
    paths of the Record schema) is a parameter, [Collab]. *)

From Stdlib Require Import ZArith QArith Ascii String List Bool Lia.
From stdpp Require Import base option list gmap strings fin_maps.

Local Open Scope Z_scope.
Local Open Scope string_scope.

(** ** JavaScript values and the built-ins the handlers call *)

Module Js.

(** A JavaScript number: [parseFloat] yields NaN, an infinity or a finite
    value.  Finite values are rationals; rounding to a double is left out,
    overflow to an infinity is kept. *)
Inductive num : Type :=
  | NaN
  | Inf (negative : bool)
  | Fin (q : Q).

(** The scalar values a JSON body or a stored document holds, with
    [VUndef] for a property that is read but absent. *)
Inductive value : Type :=
  | VUndef
  | VNull
  | VBool (b : bool)
  | VNum (q : Q)
  | VStr (s : string).

Definition isNaN (n : num) : bool :=
  match n with NaN => true | _ => false end.

Definition isFinite (n : num) : bool :=
  match n with Fin _ => true | _ => false end.

(** ToBoolean. *)
Definition truthy (v : value) : bool :=
  match v with
  | VUndef | VNull => false
  | VBool b => b
  | VNum q => negb (Qeq_bool q 0)
  | VStr s => negb (String.eqb s EmptyString)
  end.

(** [a || b]. *)
Definition or_else (a b : value) : value := if truthy a then a else b.

(** [v !== ''] and [v !== undefined]. *)
Definition is_empty_string (v : value) : bool :=
  match v with VStr EmptyString => true | _ => false end.

Definition is_undefined (v : value) : bool :=
  match v with VUndef => true | _ => false end.

(** Strict equality of scalars. *)
Definition strict_eqb (a b : value) : bool :=
  match a, b with
  | VUndef, VUndef => true
  | VNull, VNull => true
  | VBool x, VBool y => Bool.eqb x y
  | VNum x, VNum y => Qeq_bool x y
  | VStr x, VStr y => String.eqb x y
  | _, _ => false
  end.

(** Addition of numbers, as [acc + record.Amount] on two numbers. *)
Definition add (a b : num) : num :=
  match a, b with
  | NaN, _ | _, NaN => NaN
  | Inf x, Inf y => if Bool.eqb x y then Inf x else NaN
  | Inf x, Fin _ | Fin _, Inf x => Inf x
  | Fin x, Fin y => Fin (Qred (x + y))
  end.

(** *** Scanning decimal text *)

Definition is_space (c : ascii) : bool :=
  let n := nat_of_ascii c in
  ((9 <=? n) && (n <=? 13))%nat || (n =? 32)%nat.

Fixpoint skip_spaces (s : string) : string :=
  match s with
  | String c r => if is_space c then skip_spaces r else s
  | EmptyString => s
  end.

Definition digit_of (radix : Z) (c : ascii) : option Z :=
  let n := Z.of_nat (nat_of_ascii c) in
  let d :=
    if ((48 <=? n) && (n <=? 57))%Z then Some (n - 48)
    else if ((97 <=? n) && (n <=? 122))%Z then Some (n - 87)
    else if ((65 <=? n) && (n <=? 90))%Z then Some (n - 55)
    else None in
  match d with
  | Some k => if (k <? radix)%Z then Some k else None
  | None => None
  end.

(** The longest prefix of digits of [s] in [radix], as (value so far,
    number of digits read, rest of the text). *)
Fixpoint digits (radix : Z) (s : string) (acc : Z) (count : nat)
  : Z * nat * string :=
  match s with
  | String c r =>
      match digit_of radix c with
      | Some d => digits radix r (acc * radix + d) (S count)
      | None => (acc, count, s)
      end
  | EmptyString => (acc, count, s)
  end.

Definition take_sign (s : string) : bool * string :=
  match s with
  | String "-" r => (true, r)
  | String "+" r => (false, r)
  | _ => (false, s)
  end.

Definition has_hex_prefix (s : string) : option string :=
  match s with
  | String "0" (String "x" r) => Some r
  | String "0" (String "X" r) => Some r
  | _ => None
  end.

(** [parseInt(x)] without a radix, [x] a string or undefined.  [None] is
    NaN; the integer is exact (a double is, below 2^53). *)
Definition parseInt (x : option string) : option Z :=
  match x with
  | None => None
  | Some s =>
      let '(neg, s1) := take_sign (skip_spaces s) in
      let '(radix, s2) :=
        match has_hex_prefix s1 with
        | Some r => (16, r)
        | None => (10, s1)
        end in
      let '(n, count, _) := digits radix s2 0 0%nat in
      match count with
      | O => None
      | S _ => Some (if neg then - n else n)
      end
  end.

(** The largest finite double is below [2^1024]; a text that denotes a
    value rounding to [2^1024] or more yields an infinity. *)
Definition overflow_bound : Q := inject_Z (2 ^ 1024 - 2 ^ 970).

Definition of_decimal (neg : bool) (mantissa : Z) (exp10 : Z) : num :=
  let q :=
    if (0 <=? exp10)%Z then inject_Z (mantissa * 10 ^ exp10)
    else Qmake mantissa (Z.to_pos (10 ^ (- exp10))) in
  if Qle_bool overflow_bound q then Inf neg
  else Fin (Qred (if neg then - q else q)).

Definition exponent_part (s : string) : Z :=
  match s with
  | String c r =>
      if (Ascii.eqb c "e" || Ascii.eqb c "E")%bool then
        let '(neg, r1) := take_sign r in
        let '(e, count, _) := digits 10 r1 0 0%nat in
        match count with
        | O => 0
        | S _ => if neg then - e else e
        end
      else 0
  | EmptyString => 0
  end.

(** [parseFloat(x)], [x] a string or undefined: the longest prefix that
    is a decimal literal, after leading white space. *)
Definition parseFloat (x : option string) : num :=
  match x with
  | None => NaN
  | Some s =>
      let '(neg, s1) := take_sign (skip_spaces s) in
      if String.prefix "Infinity" s1 then Inf neg
      else
        let '(ip, icount, s2) := digits 10 s1 0 0%nat in
        let '(m, fcount, s3) :=
          match s2 with
          | String "." r => digits 10 r ip 0%nat
          | _ => (ip, 0%nat, s2)
          end in
        match (icount + fcount)%nat with
        | O => NaN
        | S _ => of_decimal neg m (exponent_part s3 - Z.of_nat fcount)
        end
  end.

End Js.

(** ** Documents, queries and the world the handlers run in *)

Abbreviation fields := (gmap string Js.value).

(** An identifier the store accepts (an ObjectId, a 96-bit number). *)
Definition Id := N.

Record Doc : Type := { doc_id : Id; doc_fields : fields }.

(** [obj.key], [undefined] when the property is absent. *)
Definition get (m : fields) (k : string) : Js.value :=
  default Js.VUndef (m !! k).

(** [doc.key = v] on a document that is saved afterwards: assigning
    [undefined] unsets the path. *)
Definition assign (k : string) (v : Js.value) (m : fields) : fields :=
  match v with
  | Js.VUndef => delete k m
  | _ => <[k := v]> m
  end.

(** The conditions the handlers put on a field. *)
Inductive Cond : Type :=
  | CRegexI (pattern : string)              (* { $regex: p, $options: 'i' } *)
  | CNe (v : Js.value)                      (* { $ne: v } *)
  | CEq (v : Js.value)                      (* v *)
  | CRange (gte lte : option Js.num).       (* { $gte: a, $lte: b } *)

Inductive Clause : Type :=
  | Or (alternatives : list (string * Cond))  (* $or: [{k: c}, ...] *)
  | Field (key : string) (c : Cond).

(** A query object, its properties in insertion order. *)
Definition Query := list Clause.

(** The body of a successful list response. *)
Record ListResponse : Type := {
  totalRecords : Z;
  page : Z;
  totalPages : Z;
  totalAmount : Js.num;
  records : list Doc
}.

Inductive Body : Type :=
  | BList (r : ListResponse)
  | BError (msg : string)                        (* { error } *)
  | BMessage (msg : string)                      (* { message } *)
  | BMessageError (msg : string) (err : string)  (* { message, error } *)
  | BDoc (d : option Doc)                        (* a document, or null *)
  | BNote (msg : string) (d : Doc).              (* { message, record } *)

Record Response : Type := { status : Z; body : Body }.

(** [res.json(x)] answers with status 200. *)
Definition json (b : Body) : Response := {| status := 200; body := b |}.

(** The raw query string of a request, [req.query]: names and values in
    the order of the URL. *)
Definition RawQuery := list (string * string).

Fixpoint param (q : RawQuery) (name : string) : option string :=
  match q with
  | [] => None
  | (k, v) :: rest => if String.eqb k name then Some v else param rest name
  end.

(** The cache key, [`getRecords_${JSON.stringify(req.query)}_${JSON.stringify(filter)}`].
    The two objects are kept as they are, not as text: the filter is
    built from the query, and the text of a query of string values
    determines the query. *)
Definition CacheKey : Type := RawQuery * Query.

(** An entry of the cache [memory-cache]: the value and the instant it
    expires, [time + Date.now()]. *)
Record CacheRecord : Type := { cached : ListResponse; expire : Z }.

(** The calls the handlers make on the store. *)
Inductive DbOp : Type :=
  | RecordFind (q : Query)
  | RecordFindPaged (q : Query) (skip limit : Z)
  | RecordCount (q : Query)
  | RecordSumAmount (q : Query)
  | RecordInsert (data : fields)
  | RecordFindById (id : Id)
  | RecordFindByIdAndUpdate (id : Id) (update : fields) (runValidators : bool)
  | RecordSave (d : Doc)
  | RecordFindByIdAndDelete (id : Id)
  | UserFindOne (q : Query)
  | UserFindByIdAndUpdate (id : Id) (update : fields).

Record World : Type := {
  w_records : list Doc;              (* the Record collection *)
  w_users : list Doc;                (* the User collection *)
  w_cache : list (CacheKey * CacheRecord);
  w_now : Z;                         (* Date.now(), in milliseconds *)
  w_next_id : Id;                    (* the identifier the next insert gets *)
  w_faults : list (option string);   (* per coming store call: rejects with this message *)
  w_log : list DbOp                  (* the store calls issued so far *)
}.

Definition set_records (rs : list Doc) (w : World) : World :=
  {| w_records := rs; w_users := w_users w; w_cache := w_cache w;
     w_now := w_now w; w_next_id := w_next_id w; w_faults := w_faults w;
     w_log := w_log w |}.

Definition set_users (us : list Doc) (w : World) : World :=
  {| w_records := w_records w; w_users := us; w_cache := w_cache w;
     w_now := w_now w; w_next_id := w_next_id w; w_faults := w_faults w;
     w_log := w_log w |}.

Definition set_cache (c : list (CacheKey * CacheRecord)) (w : World) : World :=
  {| w_records := w_records w; w_users := w_users w; w_cache := c;
     w_now := w_now w; w_next_id := w_next_id w; w_faults := w_faults w;
     w_log := w_log w |}.

Definition set_now (t : Z) (w : World) : World :=
  {| w_records := w_records w; w_users := w_users w; w_cache := w_cache w;
     w_now := t; w_next_id := w_next_id w; w_faults := w_faults w;
     w_log := w_log w |}.

Definition set_next_id (i : Id) (w : World) : World :=
  {| w_records := w_records w; w_users := w_users w; w_cache := w_cache w;
     w_now := w_now w; w_next_id := i; w_faults := w_faults w;
     w_log := w_log w |}.

Definition set_faults (fs : list (option string)) (w : World) : World :=
  {| w_records := w_records w; w_users := w_users w; w_cache := w_cache w;
     w_now := w_now w; w_next_id := w_next_id w; w_faults := fs;
     w_log := w_log w |}.

Definition set_log (l : list DbOp) (w : World) : World :=
  {| w_records := w_records w; w_users := w_users w; w_cache := w_cache w;
     w_now := w_now w; w_next_id := w_next_id w; w_faults := w_faults w;
     w_log := l |}.

(** ** The monad of a handler: state and exceptions *)

Inductive outcome (A : Type) : Type :=
  | Done (a : A)
  | Threw (msg : string).
Arguments Done {A} a.
Arguments Threw {A} msg.

Definition M (A : Type) : Type := World -> outcome A * World.

Definition ret {A} (a : A) : M A := fun w => (Done a, w).

Definition throw {A} (msg : string) : M A := fun w => (Threw msg, w).

Definition bind {A B} (m : M A) (k : A -> M B) : M B := fun w =>
  match m w with
  | (Done a, w') => k a w'
  | (Threw msg, w') => (Threw msg, w')
  end.

(** [try { body } catch (err) { handler(err.message) }]. *)
Definition try_catch {A} (body : M A) (handler : string -> M A) : M A := fun w =>
  match body w with
  | (Done a, w') => (Done a, w')
  | (Threw msg, w') => handler msg w'
  end.

Notation "x <- m ;; k" := (bind m (fun x => k))
  (at level 100, m at next level, right associativity).
Notation "m ;;; k" := (bind m (fun _ => k))
  (at level 100, right associativity).

Definition read {A} (f : World -> A) : M A := fun w => (Done (f w), w).

Definition write (f : World -> World) : M unit := fun w => (Done tt, f w).

(** One awaited call on the store: it is logged, and it rejects when the
    oracle says so (a lost connection, a failed cast, a failed validator);
    otherwise it runs. *)
Definition store_call {A} (op : DbOp) (run : M A) : M A := fun w =>
  let w1 := set_log (w_log w ++ [op])%list w in
  match w_faults w with
  | Some msg :: rest => (Threw msg, set_faults rest w1)
  | None :: rest => run (set_faults rest w1)
  | [] => run w1
  end.

(** [await Promise.all(xs.map(f))]: every call is started, in order; the
    first rejection, if any, is what the await throws. *)
Fixpoint all_of {A B} (f : A -> M B) (xs : list A) : M (list B) := fun w =>
  match xs with
  | [] => (Done [], w)
  | x :: rest =>
      match f x w with
      | (Done b, w1) =>
          match all_of f rest w1 with
          | (Done bs, w2) => (Done (b :: bs), w2)
          | (Threw msg, w2) => (Threw msg, w2)
          end
      | (Threw msg, w1) =>
          (Threw msg, snd (all_of f rest w1))
      end
  end.

(** ** What the program takes from its libraries and its schema *)

Record Collab : Type := {
  (** [new RegExp(pattern, 'i').test(text)], the store's [$regex]. *)
  regex_test : string -> string -> bool;
  (** The keys of [Record.schema.paths] whose instance is String; the
      schema ([models/Record.js]) is not among the sources. *)
  string_paths : list string;
  (** Joi's [string().email()] and [string().uri()] on a non-empty string. *)
  joi_email : string -> bool;
  joi_uri : string -> bool;
  (** The strings Joi's [number()] converts to a number. *)
  joi_number_text : string -> bool
}.

(** ** The validation schema of a record (Joi) *)

Inductive JoiFormat : Type := Email | Uri.

Inductive JoiType : Type :=
  | JString (format : option JoiFormat)
  | JNumber.

Record JoiKey : Type := { jk_key : string; jk_type : JoiType; jk_required : bool }.

Inductive JoiErrorType : Type :=
  | any_required | string_base | string_empty | string_email | string_uri
  | number_base | number_unsafe | object_unknown.

(** [error.details[0]]: the path and the type of the first violation. *)
Record JoiError : Type := { je_key : string; je_type : JoiErrorType }.

Definition recordSchema : list JoiKey :=
  [ {| jk_key := "First Name"; jk_type := JString None; jk_required := true |};
    {| jk_key := "Last Name"; jk_type := JString None; jk_required := true |};
    {| jk_key := "Magazine"; jk_type := JString None; jk_required := true |};
    {| jk_key := "Amount"; jk_type := JNumber; jk_required := true |};
    {| jk_key := "Email"; jk_type := JString (Some Email); jk_required := true |};
    {| jk_key := "Model Insta Link 1"; jk_type := JString (Some Uri); jk_required := true |};
    {| jk_key := "LeadSource"; jk_type := JString None; jk_required := false |};
    {| jk_key := "Notes"; jk_type := JString None; jk_required := false |} ].

Definition quote : string := String (ascii_of_nat 34) EmptyString.

(** [error.details[0].message], Joi's default templates. *)
Definition message (e : JoiError) : string :=
  quote ++ je_key e ++ quote ++
  match je_type e with
  | any_required => " is required"
  | string_base => " must be a string"
  | string_empty => " is not allowed to be empty"
  | string_email => " must be a valid email"
  | string_uri => " must be a valid uri"
  | number_base => " must be a number"
  | number_unsafe => " must be a safe number"
  | object_unknown => " is not allowed"
  end.

Definition max_safe_integer : Q := inject_Z (2 ^ 53 - 1).

Section Program.

Variable E : Collab.

(** The first violation of one key's rule by the value [v] found under it
    ([VUndef] when the key is absent). *)
Definition validate_key (k : JoiKey) (v : Js.value) : option JoiErrorType :=
  match v with
  | Js.VUndef => if jk_required k then Some any_required else None
  | _ =>
      match jk_type k with
      | JString format =>
          match v with
          | Js.VStr EmptyString => Some string_empty
          | Js.VStr s =>
              match format with
              | Some Email => if joi_email E s then None else Some string_email
              | Some Uri => if joi_uri E s then None else Some string_uri
              | None => None
              end
          | _ => Some string_base
          end
      | JNumber =>
          match v with
          | Js.VNum q =>
              if Qle_bool (- max_safe_integer) q && Qle_bool q max_safe_integer
              then None else Some number_unsafe
          | Js.VStr s => if joi_number_text E s then None else Some number_base
          | _ => Some number_base
          end
      end
  end.

Fixpoint validate_keys (schema : list JoiKey) (data : fields) : option JoiError :=
  match schema with
  | [] => None
  | k :: rest =>
      match validate_key k (get data (jk_key k)) with
      | Some t => Some {| je_key := jk_key k; je_type := t |}
      | None => validate_keys rest data
      end
  end.

(** The keys of the payload the schema does not name, in the order of the
    payload's keys. *)
Definition unknown_keys (schema : list JoiKey) (data : fields) : list string :=
  List.filter
    (fun k => negb (existsb (fun j => String.eqb (jk_key j) k) schema))
    (map fst (map_to_list data)).

(** [schema.validate(body).error]: keys in the order of the schema, then
    the keys the schema does not know; the first violation ends it.  An
    undefined body is valid, the object is not required. *)
Definition validate (schema : list JoiKey) (body : option fields) : option JoiError :=
  match body with
  | None => None
  | Some data =>
      match validate_keys schema data with
      | Some e => Some e
      | None =>
          match unknown_keys schema data with
          | k :: _ => Some {| je_key := k; je_type := object_unknown |}
          | [] => None
          end
      end
  end.

(** ** The document store *)

Definition num_le (a b : Js.num) : bool :=
  match a, b with
  | Js.NaN, _ | _, Js.NaN => false
  | Js.Inf true, _ => true
  | _, Js.Inf false => true
  | Js.Fin x, Js.Fin y => Qle_bool x y
  | _, _ => false
  end.

(** Equality in a query: [null] and [undefined] match a field that is
    null or missing. *)
Definition query_eq (field wanted : Js.value) : bool :=
  match wanted with
  | Js.VUndef | Js.VNull =>
      match field with Js.VUndef | Js.VNull => true | _ => false end
  | _ => Js.strict_eqb field wanted
  end.

Definition bound_ok (test : Js.num -> bool) (b : option Js.num) : bool :=
  match b with
  | Some x => test x
  | None => true
  end.

Definition holds (c : Cond) (v : Js.value) : bool :=
  match c with
  | CRegexI p => match v with Js.VStr s => regex_test E p s | _ => false end
  | CNe x => negb (query_eq v x)
  | CEq x => query_eq v x
  | CRange lo hi =>
      match v with
      | Js.VNum q =>
          bound_ok (fun a => num_le a (Js.Fin q)) lo
          && bound_ok (fun b => num_le (Js.Fin q) b) hi
      | _ => false
      end
  end.

Definition clause_holds (d : Doc) (c : Clause) : bool :=
  match c with
  | Or alts => existsb (fun kc => holds (snd kc) (get (doc_fields d) (fst kc))) alts
  | Field k c => holds c (get (doc_fields d) k)
  end.

Definition matches (q : Query) (d : Doc) : bool := forallb (clause_holds d) q.

Definition find_by_id (id : Id) (ds : list Doc) : option Doc :=
  List.find (fun d => N.eqb (doc_id d) id) ds.

(** The first document with this identifier, changed by [f]. *)
Fixpoint update_by_id (id : Id) (f : fields -> fields) (ds : list Doc) : list Doc :=
  match ds with
  | [] => []
  | d :: rest =>
      if N.eqb (doc_id d) id
      then {| doc_id := doc_id d; doc_fields := f (doc_fields d) |} :: rest
      else d :: update_by_id id f rest
  end.

Fixpoint delete_by_id (id : Id) (ds : list Doc) : list Doc :=
  match ds with
  | [] => []
  | d :: rest => if N.eqb (doc_id d) id then rest else d :: delete_by_id id rest
  end.

(** An update document without operators sets its paths; paths whose
    value is undefined are dropped from it. *)
Definition apply_update (update : fields) (old : fields) : fields :=
  filter (fun kv => Js.is_undefined (snd kv) = false) update ∪ old.

(** [Record.find(q).lean()]. *)
Definition find_records (q : Query) : M (list Doc) :=
  store_call (RecordFind q)
    (read (fun w => List.filter (matches q) (w_records w))).

(** [Record.find(q).skip(s).limit(l).lean()]: the store refuses a
    negative skip; a negative limit is its absolute value, zero is no
    limit. *)
Definition find_records_paged (q : Query) (skip limit : Z) : M (list Doc) :=
  store_call (RecordFindPaged q skip limit)
    (if (skip <? 0)%Z then throw "Skip value must be non-negative"
     else read (fun w =>
       let rest := drop (Z.to_nat skip) (List.filter (matches q) (w_records w)) in
       if (limit =? 0)%Z then rest else take (Z.abs_nat limit) rest)).

(** [Record.countDocuments(q)]. *)
Definition count_documents (q : Query) : M Z :=
  store_call (RecordCount q)
    (read (fun w => Z.of_nat (length (List.filter (matches q) (w_records w))))).

(** [$sum: '$Amount'] adds the numeric values and passes over the rest. *)
Definition sum_step (acc : Js.num) (d : Doc) : Js.num :=
  match get (doc_fields d) "Amount" with
  | Js.VNum q => Js.add acc (Js.Fin q)
  | _ => acc
  end.

(** [Record.aggregate([{ $match: q }, { $group: { _id: null, totalAmount:
    { $sum: '$Amount' } } }])]: one group, or none when nothing matches. *)
Definition aggregate_total (q : Query) : M (list Js.num) :=
  store_call (RecordSumAmount q)
    (read (fun w =>
       match List.filter (matches q) (w_records w) with
       | [] => []
       | ds => [fold_left sum_step ds (Js.Fin 0)]
       end)).

(** [new Record(data).save()]: the store gives the document its
    identifier.  The casts and hooks of the schema are the store's. *)
Definition insert_record (data : fields) : M Doc :=
  store_call (RecordInsert data)
    (fun w =>
       let d := {| doc_id := w_next_id w; doc_fields := data |} in
       (Done d, set_next_id (N.succ (w_next_id w)) (set_records (w_records w ++ [d])%list w))).

(** [Record.findById(id)]. *)
Definition record_find_by_id (id : Id) : M (option Doc) :=
  store_call (RecordFindById id) (read (fun w => find_by_id id (w_records w))).

(** [Record.findByIdAndUpdate(id, update, { new: true, ... })]: the
    document after the update, or null. *)
Definition record_find_by_id_and_update (id : Id) (update : fields) (runValidators : bool)
  : M (option Doc) :=
  store_call (RecordFindByIdAndUpdate id update runValidators)
    (fun w =>
       let rs := update_by_id id (apply_update update) (w_records w) in
       (Done (find_by_id id rs), set_records rs w)).

(** [record.save()] on a document that was loaded: its paths are written
    back under its identifier. *)
Definition save_record (d : Doc) : M unit :=
  store_call (RecordSave d)
    (write (fun w =>
       set_records (update_by_id (doc_id d) (fun _ => doc_fields d) (w_records w)) w)).

(** [Record.findByIdAndDelete(id).lean()]. *)
Definition record_find_by_id_and_delete (id : Id) : M (option Doc) :=
  store_call (RecordFindByIdAndDelete id)
    (fun w =>
       (Done (find_by_id id (w_records w)),
        set_records (delete_by_id id (w_records w)) w)).

(** [User.findOne(q).lean()]. *)
Definition user_find_one (q : Query) : M (option Doc) :=
  store_call (UserFindOne q) (read (fun w => List.find (matches q) (w_users w))).

(** [User.findByIdAndUpdate(id, update, { new: true })]. *)
Definition user_find_by_id_and_update (id : Id) (update : fields) : M (option Doc) :=
  store_call (UserFindByIdAndUpdate id update)
    (fun w =>
       let us := update_by_id id (apply_update update) (w_users w) in
       (Done (find_by_id id us), set_users us w)).

End Program.

(** ** The cache ([memory-cache]): get and put with a time to live *)

#[global] Instance Q_eq_dec : EqDecision Q.
Proof. solve_decision. Defined.
#[global] Instance num_eq_dec : EqDecision Js.num.
Proof. solve_decision. Defined.
#[global] Instance value_eq_dec : EqDecision Js.value.
Proof. solve_decision. Defined.
#[global] Instance Cond_eq_dec : EqDecision Cond.
Proof. solve_decision. Defined.
#[global] Instance Clause_eq_dec : EqDecision Clause.
Proof. solve_decision. Defined.


Definition key_eqb (a b : CacheKey) : bool := bool_decide (a = b).

Fixpoint cache_lookup (k : CacheKey) (c : list (CacheKey * CacheRecord))
  : option CacheRecord :=
  match c with
  | [] => None
  | (k', r) :: rest => if key_eqb k' k then Some r else cache_lookup k rest
  end.

Definition cache_remove (k : CacheKey) (c : list (CacheKey * CacheRecord))
  : list (CacheKey * CacheRecord) :=
  List.filter (fun kr => negb (key_eqb (fst kr) k)) c.

(** [cache.get(key)]: the value while [expire >= Date.now()], else null.
    The timer by which the library also drops the entry at that instant
    is not a separate step: past its expiry an entry is absent either
    way. *)
Definition cache_get (k : CacheKey) : M (option ListResponse) :=
  read (fun w =>
    match cache_lookup k (w_cache w) with
    | Some r => if (w_now w <=? expire r)%Z then Some (cached r) else None
    | None => None
    end).

(** [cache.put(key, value, time)]. *)
Definition cache_put (k : CacheKey) (v : ListResponse) (time : Z) : M unit :=
  write (fun w =>
    set_cache ((k, {| cached := v; expire := time + w_now w |})
               :: cache_remove k (w_cache w)) w).

(** The body of a lookup response: [{ record, sameEmailRecords,
    userDetails }], or [{ error }]. *)
Inductive LookupBody : Type :=
  | LFound (record : Doc) (sameEmailRecords : list Doc) (userDetails : option Doc)
  | LError (msg : string).

Record LookupResponse : Type := { l_status : Z; l_body : LookupBody }.

(** ** The handlers of [src/controllers/recordController.js] *)

Module RecordController.
Section Handlers.

Variable E : Collab.

(** [parseInt(x) || fallback]. *)
Definition int_or (x : option string) (fallback : Z) : Z :=
  match Js.parseInt x with
  | Some n => if (n =? 0)%Z then fallback else n
  | None => fallback
  end.

(** [x || ''] on a query parameter. *)
Definition text_or_empty (x : option string) : string :=
  match x with
  | Some s => s
  | None => EmptyString
  end.

(** [!s] on a string. *)
Definition blank (s : string) : bool := String.eqb s EmptyString.

(** [Math.ceil(a / b)]. *)
Definition ceil_div (a b : Z) : Z := - ((- a) / b).

(** [record.Amount] as the right operand of [acc + record.Amount]; the
    Amount path of the schema is a Number, so a stored string is not
    followed through the concatenation and counts as NaN. *)
Definition amount_of (d : Doc) : Js.num :=
  match get (doc_fields d) "Amount" with
  | Js.VNum q => Js.Fin q
  | Js.VNull => Js.Fin 0
  | Js.VBool b => Js.Fin (if b then 1 else 0)
  | Js.VUndef | Js.VStr _ => Js.NaN
  end.

Definition isAmountFilterOnly (search magazineName : string) (minPrice maxPrice : Js.num)
  : bool :=
  (blank search && blank magazineName && Js.isFinite minPrice && Js.isFinite maxPrice)
  || (blank search && blank magazineName && Js.isFinite minPrice
      && negb (Js.isNaN maxPrice))
  || (blank search && blank magazineName && negb (Js.isNaN minPrice)
      && Js.isNaN maxPrice).

(** The [filter] object of [getRecords]. *)
Definition build_filter (search magazineName : string) (minPrice maxPrice : Js.num)
  : Query :=
  ([ Or (map (fun key => (key, CRegexI search)) (string_paths E));
     Field "Full_Name" (CNe (Js.VStr "undefined undefined")) ]
   ++ (if blank magazineName then [] else [Field "Magazine" (CRegexI magazineName)])
   ++ (if negb (Js.isNaN minPrice) && negb (Js.isNaN maxPrice)
       then [Field "Amount" (CRange (Some minPrice) (Some maxPrice))]
       else if negb (Js.isNaN minPrice)
       then [Field "Amount" (CRange (Some minPrice) None)]
       else if negb (Js.isNaN maxPrice)
       then [Field "Amount" (CRange None (Some maxPrice))]
       else []))%list.

Definition ttl : Z := 5 * 60 * 1000.

Definition getRecords (query : RawQuery) : M Response :=
  let page := int_or (param query "page") 1 in
  let limit := int_or (param query "limit") 200 in
  let search := text_or_empty (param query "search") in
  let minPrice := Js.parseFloat (param query "minPrice") in
  let maxPrice := Js.parseFloat (param query "maxPrice") in
  let magazineName := text_or_empty (param query "magazine") in
  try_catch
    (let amountOnly := isAmountFilterOnly search magazineName minPrice maxPrice in
     let filter := build_filter search magazineName minPrice maxPrice in
     let cacheKey := (query, filter) in
     cachedData <- cache_get cacheKey ;;
     match cachedData with
     | Some data => ret (json (BList data))
     | None =>
         if amountOnly then
           records <- find_records E filter ;;
           let totalRecords := Z.of_nat (length records) in
           let totalPages := 1 in
           let sumOfAmount :=
             fold_left (fun acc record => Js.add acc (amount_of record))
                       records (Js.Fin 0) in
           let responseData :=
             {| totalRecords := totalRecords; page := 1; totalPages := totalPages;
                totalAmount := sumOfAmount; records := records |} in
           cache_put cacheKey responseData ttl ;;;
           ret (json (BList responseData))
         else
           let skip := (page - 1) * limit in
           records <- find_records_paged E filter skip limit ;;
           totalRecords <- count_documents E filter ;;
           let totalPages := ceil_div totalRecords limit in
           totalAmount <- aggregate_total E filter ;;
           let sumOfAmount :=
             match totalAmount with
             | total :: _ => total
             | [] => Js.Fin 0
             end in
           let responseData :=
             {| totalRecords := totalRecords;
                page := if amountOnly then 1 else page;
                totalPages := totalPages;
                totalAmount := sumOfAmount; records := records |} in
           cache_put cacheKey responseData ttl ;;;
           ret (json (BList responseData))
     end)
    (fun msg =>
       ret {| status := 500; body := BError ("Error retrieving records: " ++ msg) |}).

Definition createRecord (body : option fields) : M Response :=
  match validate E recordSchema body with
  | Some error => ret {| status := 400; body := BError (message error) |}
  | None =>
      try_catch
        (savedRecord <- insert_record (default ∅ body) ;;
         ret {| status := 201; body := BDoc (Some savedRecord) |})
        (fun msg => ret {| status := 500; body := BError msg |})
  end.

(** The update addressed by [?id=]. *)
Definition updateRecord (id : Id) (body : option fields) : M Response :=
  try_catch
    (updateFields <-
       match body with
       | Some data => ret data
       | None => throw "Cannot convert undefined or null to object"
       end ;;
     let filteredUpdateFields : fields :=
       filter (fun kv => negb (Js.is_empty_string (snd kv))
                         && negb (Js.is_undefined (snd kv)) = true)
              updateFields in
     if (size filteredUpdateFields =? 0)%nat then
       ret {| status := 400; body := BError "No valid fields to update" |}
     else
       updatedRecord <- record_find_by_id_and_update id filteredUpdateFields true ;;
       ret (json (BDoc updatedRecord)))
    (fun _ => ret {| status := 500; body := BError "Internal Server Error" |}).

Definition updateRecordNotes (id : Id) (body : option fields) : M Response :=
  (* the destructuring stands before the try: on an undefined body it
     throws out of the handler *)
  data <-
    match body with
    | Some data => ret data
    | None => throw "Cannot destructure property 'note' of 'req.body' as it is undefined."
    end ;;
  let note := get data "note" in
  let noteDate := get data "noteDate" in
  try_catch
    (found <- record_find_by_id id ;;
     match found with
     | None => ret {| status := 404; body := BError "Record not found" |}
     | Some record =>
         let record :=
           {| doc_id := doc_id record;
              doc_fields := assign "NoteDate" noteDate
                              (assign "Notes" note (doc_fields record)) |} in
         save_record record ;;;
         ret {| status := 200; body := BNote "Note updated successfully" record |}
     end)
    (fun msg => ret {| status := 500; body := BError msg |}).

Definition deleteRecord (id : Id) : M Response :=
  try_catch
    (deletedRecord <- record_find_by_id_and_delete id ;;
     match deletedRecord with
     | None => ret {| status := 404; body := BError "Record not found" |}
     | Some _ => ret (json (BMessage "Record deleted successfully"))
     end)
    (fun msg => ret {| status := 500; body := BError msg |}).

Definition getRecordById (id : Id) : M LookupResponse :=
  try_catch
    (found <- record_find_by_id id ;;
     match found with
     | None => ret {| l_status := 404; l_body := LError "Record not found" |}
     | Some record =>
         let email := get (doc_fields record) "Email" in
         sameEmailRecords <- find_records E [Field "Email" (CEq email)] ;;
         userDetails <- user_find_one E [Field "Email_Address" (CEq email)] ;;
         ret {| l_status := 200;
                l_body := LFound record sameEmailRecords userDetails |}
     end)
    (fun msg => ret {| l_status := 500; l_body := LError msg |}).

End Handlers.
End RecordController.

(** ** The mounted update of [src/unnamed/part_000]: the cascade *)

Module MountedController.
Section Handlers.

Variable E : Collab.

(** The object [updatedUserDetails]: each path from the payload, or else
    from the user as loaded. *)
Definition updatedUserDetails (data old : fields) : fields :=
  <["Model_Type" := Js.or_else (get data "Model_Type") (get old "Model_Type")]>
  (<["Stage_Name" := Js.or_else (get data "Stage_Name") (get old "Stage_Name")]>
  (<["Model_Insta_Link" :=
       Js.or_else (get data "Model_Insta_Link") (get old "Model_Insta_Link")]>
  (<["Email_Address" := Js.or_else (get data "Email") (get old "Email_Address")]>
   ∅))).

Definition updateRecord (id : Id) (body : option fields) : M Response :=
  try_catch
    (match body with
     | None => ret {| status := 400; body := BMessage "Invalid JSON payload" |}
     | Some data =>
         updated <- record_find_by_id_and_update id data false ;;
         match updated with
         | None => ret {| status := 404; body := BMessage "Record not found" |}
         | Some updatedRecord =>
             let email := get (doc_fields updatedRecord) "Email" in
             sameEmailRecords <- find_records E [Field "Email" (CEq email)] ;;
             all_of (fun record =>
                       record_find_by_id_and_update (doc_id record) data false)
                    sameEmailRecords ;;;
             found <- user_find_one E [Field "Email_Address" (CEq email)] ;;
             match found with
             | Some userDetails =>
                 user_find_by_id_and_update (doc_id userDetails)
                   (updatedUserDetails data (doc_fields userDetails)) ;;;
                 ret tt
             | None => ret tt
             end ;;;
             ret {| status := 200;
                    body := BMessage "Records and user details updated successfully" |}
         end
     end)
    (fun msg =>
       ret {| status := 500; body := BMessageError "Error updating records" msg |}).

(** The list handler of the same file: the filter, the key and the paged
    retrieval are those of [recordController.js]; there is no mode
    without pagination. *)
Definition getRecords (query : RawQuery) : M Response :=
  let page := RecordController.int_or (param query "page") 1 in
  let limit := RecordController.int_or (param query "limit") 200 in
  let search := RecordController.text_or_empty (param query "search") in
  let minPrice := Js.parseFloat (param query "minPrice") in
  let maxPrice := Js.parseFloat (param query "maxPrice") in
  let magazineName := RecordController.text_or_empty (param query "magazine") in
  try_catch
    (let filter := RecordController.build_filter E search magazineName minPrice maxPrice in
     let cacheKey := (query, filter) in
     cachedData <- cache_get cacheKey ;;
     match cachedData with
     | Some data => ret (json (BList data))
     | None =>
         let skip := (page - 1) * limit in
         records <- find_records_paged E filter skip limit ;;
         totalRecords <- count_documents E filter ;;
         let totalPages := RecordController.ceil_div totalRecords limit in
         totalAmount <- aggregate_total E filter ;;
         let sumOfAmount :=
           match totalAmount with
           | total :: _ => total
           | [] => Js.Fin 0
           end in
         let responseData :=
           {| totalRecords := totalRecords; page := page; totalPages := totalPages;
              totalAmount := sumOfAmount; records := records |} in
         cache_put cacheKey responseData RecordController.ttl ;;;
         ret (json (BList responseData))
     end)
    (fun msg =>
       ret {| status := 500; body := BError ("Error retrieving records: " ++ msg) |}).

End Handlers.
End MountedController.

(** ** A concrete setting, for the examples *)

Module Sample.

Definition lower (c : ascii) : ascii :=
  let n := nat_of_ascii c in
  if ((65 <=? n) && (n <=? 90))%nat then ascii_of_nat (n + 32) else c.

Fixpoint lower_all (s : string) : string :=
  match s with
  | EmptyString => EmptyString
  | String c r => String (lower c) (lower_all r)
  end.

Fixpoint occurs (p s : string) : bool :=
  String.prefix p s ||
  match s with
  | EmptyString => false
  | String _ r => occurs p r
  end.

(** The engine on a pattern without metacharacters: a search of the
    text, letter case ignored.  The two Joi formats are reduced to the
    mark that tells them apart. *)
Definition collab : Collab :=
  {| regex_test := fun p s => occurs (lower_all p) (lower_all s);
     string_paths := ["First Name"; "Last Name"; "Full_Name"; "Magazine"; "Email"; "Notes"];
     joi_email := occurs "@";
     joi_uri := occurs "://";
     joi_number_text := fun s => Js.isFinite (Js.parseFloat (Some s)) |}.

Definition record (id : Id) (first last magazine email : string) (amount : Z) : Doc :=
  {| doc_id := id;
     doc_fields :=
       <["First Name" := Js.VStr first]>
       (<["Last Name" := Js.VStr last]>
       (<["Full_Name" := Js.VStr (first ++ " " ++ last)]>
       (<["Magazine" := Js.VStr magazine]>
       (<["Amount" := Js.VNum (inject_Z amount)]>
       (<["Email" := Js.VStr email]> ∅))))) |}.

Definition r1 : Doc := record 1%N "Ann" "Lee" "Vogue" "a@x.com" 100.
Definition r2 : Doc := record 2%N "Ann" "Lee" "Elle" "a@x.com" 250.
Definition r3 : Doc := record 3%N "Ann" "Lee" "GQ" "a@x.com" 40.
Definition r4 : Doc := record 4%N "Bob" "Ray" "Vogue" "b@y.com" 70.

Definition u1 : Doc :=
  {| doc_id := 10%N;
     doc_fields :=
       <["Email_Address" := Js.VStr "a@x.com"]>
       (<["Stage_Name" := Js.VStr "Annie"]>
       (<["Model_Type" := Js.VStr "Print"]>
       (<["Model_Insta_Link" := Js.VStr "https://insta.example/annie"]> ∅))) |}.

(** Payloads of the examples. *)
Definition blank_stage : fields := <["Stage_Name" := Js.VStr EmptyString]> ∅.

Definition new_magazine : fields :=
  <["Magazine" := Js.VStr "Time"]> (<["Stage_Name" := Js.VStr "Ann L"]> ∅).

Definition valid_payload : fields :=
  <["First Name" := Js.VStr "Cy"]>
  (<["Last Name" := Js.VStr "Doe"]>
  (<["Magazine" := Js.VStr "Elle"]>
  (<["Amount" := Js.VNum 55]>
  (<["Email" := Js.VStr "c@z.com"]>
  (<["Model Insta Link 1" := Js.VStr "https://insta.example/cy"]> ∅))))).

(** All required fields as they should be, and a LeadSource that is a
    number. *)
Definition bad_lead_source : fields := <["LeadSource" := Js.VNum 5]> valid_payload.

Definition no_email : fields := delete "Email" valid_payload.

(** A full update with one blank field. *)
Definition partial_payload : fields := <["Notes" := Js.VStr EmptyString]> new_magazine.

Definition note_body : fields :=
  <["note" := Js.VStr "call back"]> (<["noteDate" := Js.VStr "2024-05-01"]> ∅).

(** Query strings: a maxPrice alone, a minPrice alone, a search with
    paging. *)
Definition max_only_query : RawQuery := [("maxPrice", "100"); ("limit", "1")].
Definition min_only_query : RawQuery := [("minPrice", "50"); ("limit", "1")].
Definition paged_query : RawQuery := [("search", "ann"); ("page", "2"); ("limit", "2")].

Definition world : World :=
  {| w_records := [r1; r2; r3; r4];
     w_users := [u1];
     w_cache := [];
     w_now := 1000;
     w_next_id := 5%N;
     w_faults := [];
     w_log := [] |}.

(** The valid payload with a key the schema does not name. *)
Definition with_phone : fields := <["Phone" := Js.VStr "555 0100"]> valid_payload.

(** The same world with a store that lets one call through and rejects
    the next. *)
Definition half_failing_world : World := set_faults [None; Some "connection lost"] world.

(** The same world with a store that rejects the first call. *)
Definition failing_world : World := set_faults [Some "connection lost"] world.

(** The world after a first list request, then a second of time and a
    delete. *)
Definition listed_world : World :=
  snd (RecordController.getRecords collab min_only_query world).

Definition later_world : World :=
  snd (RecordController.deleteRecord 1%N (set_now (w_now listed_world + 1000) listed_world)).

End Sample.

(** ** Notions the statements use *)

(** No store call of the request is made to reject by the oracle. *)
Definition quiet (w : World) : Prop := Forall (fun f => f = None) (w_faults w).

(** The world once a store call has been issued and let through. *)
Definition logged (op : DbOp) (w : World) : World :=
  set_faults (tail (w_faults w)) (set_log (w_log w ++ [op])%list w).

(** The document [d] with its fields changed by [f]. *)
Definition with_fields (f : fields -> fields) (d : Doc) : Doc :=
  {| doc_id := doc_id d; doc_fields := f (doc_fields d) |}.

(** The paths of a User the cascade writes, each with the payload key it
    is read from. *)
Definition user_paths : list (string * string) :=
  [ ("Model_Type", "Model_Type"); ("Stage_Name", "Stage_Name");
    ("Model_Insta_Link", "Model_Insta_Link"); ("Email_Address", "Email") ].

(** What [getRecords] reads off a query string. *)
Definition page_of (query : RawQuery) : Z :=
  RecordController.int_or (param query "page") 1.

Definition limit_of (query : RawQuery) : Z :=
  RecordController.int_or (param query "limit") 200.

Definition amount_only (query : RawQuery) : bool :=
  RecordController.isAmountFilterOnly
    (RecordController.text_or_empty (param query "search"))
    (RecordController.text_or_empty (param query "magazine"))
    (Js.parseFloat (param query "minPrice"))
    (Js.parseFloat (param query "maxPrice")).

Definition filter_of (E : Collab) (query : RawQuery) : Query :=
  RecordController.build_filter E
    (RecordController.text_or_empty (param query "search"))
    (RecordController.text_or_empty (param query "magazine"))
    (Js.parseFloat (param query "minPrice"))
    (Js.parseFloat (param query "maxPrice")).

Definition cache_key (E : Collab) (query : RawQuery) : CacheKey :=
  (query, filter_of E query).

(** What [cache.get] finds under a key in a world. *)
Definition cached_at (k : CacheKey) (w : World) : option ListResponse :=
  match cache_lookup k (w_cache w) with
  | Some r => if (w_now w <=? expire r)%Z then Some (cached r) else None
  | None => None
  end.

(** The records of a world a query selects, in store order. *)
Definition matching (E : Collab) (q : Query) (w : World) : list Doc :=
  List.filter (matches E q) (w_records w).

(** The number of store calls a list request makes on a cache miss. *)
Definition list_calls (query : RawQuery) : nat :=
  if amount_only query then 1%nat else 3%nat.

Definition rejects (f : option string) : bool :=
  match f with Some _ => true | None => false end.

(** The response of the mode without pagination. *)
Definition unpaged_response (E : Collab) (query : RawQuery) (w : World) : ListResponse :=
  let found := matching E (filter_of E query) w in
  {| totalRecords := Z.of_nat (length found);
     page := 1;
     totalPages := 1;
     totalAmount :=
       fold_left (fun acc record => Js.add acc (RecordController.amount_of record))
                 found (Js.Fin 0);
     records := found |}.

(** The response of the paged retrieval. *)
Definition paged_response (E : Collab) (query : RawQuery) (w : World) : ListResponse :=
  let found := matching E (filter_of E query) w in
  let skipped := drop (Z.to_nat ((page_of query - 1) * limit_of query)) found in
  {| totalRecords := Z.of_nat (length found);
     page := page_of query;
     totalPages :=
       RecordController.ceil_div (Z.of_nat (length found)) (limit_of query);
     totalAmount :=
       match found with
       | [] => Js.Fin 0
       | _ => fold_left sum_step found (Js.Fin 0)
       end;
     records :=
       if (limit_of query =? 0)%Z then skipped
       else take (Z.abs_nat (limit_of query)) skipped |}.

(** The world after a response has been put in the cache. *)
Definition stored (k : CacheKey) (v : ListResponse) (w : World) : World :=
  set_cache ((k, {| cached := v; expire := RecordController.ttl + w_now w |})
             :: cache_remove k (w_cache w)) w.

(** The response a list request computes on a miss, from the records of
    the world it runs in. *)
Definition fresh_response (E : Collab) (query : RawQuery) (w : World) : ListResponse :=
  if amount_only query then unpaged_response E query w else paged_response E query w.

Definition retrieval_error (msg : string) : Response :=
  {| status := 500; body := BError ("Error retrieving records: " ++ msg) |}.

(** A command never touches the cache. *)
Definition keeps_cache {A} (m : M A) : Prop :=
  forall w, w_cache (snd (m w)) = w_cache w.

(** What may happen between two list requests: any of the writing
    handlers runs, time passes, the oracle is set anew. *)
Inductive write_step (E : Collab) : World -> World -> Prop :=
  | step_create body w :
      write_step E w (snd (RecordController.createRecord E body w))
  | step_update id body w :
      write_step E w (snd (RecordController.updateRecord id body w))
  | step_cascade id body w :
      write_step E w (snd (MountedController.updateRecord E id body w))
  | step_notes id body w :
      write_step E w (snd (RecordController.updateRecordNotes id body w))
  | step_delete id w :
      write_step E w (snd (RecordController.deleteRecord id w))
  | step_tick dt w :
      (0 <= dt)%Z -> write_step E w (set_now (w_now w + dt) w)
  | step_oracle fs w :
      write_step E w (set_faults fs w).

(** The violation Joi reports: the first key of the schema, in the order
    of the schema, whose rule the payload breaks. *)
Definition first_violation (E : Collab) (data : fields) (e : JoiError) : Prop :=
  exists pre k post,
    recordSchema = (pre ++ k :: post)%list /\
    je_key e = jk_key k /\
    validate_key E k (get data (jk_key k)) = Some (je_type e) /\
    Forall (fun j => validate_key E j (get data (jk_key j)) = None) pre.

Definition not_numeric (E : Collab) (v : Js.value) : bool :=
  match v with
  | Js.VNum _ => false
  | Js.VStr s => negb (joi_number_text E s)
  | _ => true
  end.

(** The failures of a payload the specification lists. *)
Inductive listed_violation (E : Collab) (data : fields) : Prop :=
  | missing_required k :
      In k recordSchema -> jk_required k = true -> data !! jk_key k = None ->
      listed_violation E data
  | malformed_email s :
      data !! "Email" = Some (Js.VStr s) -> joi_email E s = false ->
      listed_violation E data
  | malformed_uri s :
      data !! "Model Insta Link 1" = Some (Js.VStr s) -> joi_uri E s = false ->
      listed_violation E data
  | amount_not_numeric v :
      data !! "Amount" = Some v -> not_numeric E v = true ->
      listed_violation E data.

(** Every required field is present and passes its rule. *)
Definition required_well_formed (E : Collab) (data : fields) : Prop :=
  forall k, In k recordSchema -> jk_required k = true ->
    data !! jk_key k <> None /\ validate_key E k (get data (jk_key k)) = None.

(** The whole payload passes: every key of the schema passes its rule and
    the payload has no key outside the schema. *)
Definition payload_valid (E : Collab) (data : fields) : Prop :=
  (forall k, In k recordSchema -> validate_key E k (get data (jk_key k)) = None) /\
  (forall key, data !! key <> None -> exists k, In k recordSchema /\ jk_key k = key).

(** Identifiers are in order: no two records share one, and each is below
    the identifier the next insert gets. *)
Definition ids_ok (w : World) : Prop :=
  NoDup (map doc_id (w_records w)) /\
  forall d, In d (w_records w) -> (doc_id d < w_next_id w)%N.

(** A command keeps a property of the world, however it ends. *)
Definition keeps_inv {A} (I : World -> Prop) (m : M A) : Prop :=
  forall w, I w -> I (snd (m w)).

(** When a command throws, a property of the world still holds. *)
Definition threw_keeps {A} (I : World -> Prop) (m : M A) : Prop :=
  forall w, I w ->
    match m w with
    | (Threw _, w') => I w'
    | (Done _, _) => True
    end.

(** A property that does not read the log nor the oracle. *)
Definition log_blind (I : World -> Prop) : Prop :=
  forall w l fs, I w -> I (set_faults fs (set_log l w)) /\ I (set_log l w).

(** Every value a command ends with has a property. *)
Definition returns {A} (P : A -> Prop) (m : M A) : Prop :=
  forall w a w', m w = (Done a, w') -> P a.

(** The two collections and the identifier supply. *)
Definition store_of (w : World) : list Doc * list Doc * Id :=
  (w_records w, w_users w, w_next_id w).

(** The names of the keys of a schema. *)
Definition schema_names (schema : list JoiKey) : list string := map jk_key schema.

(** * Properties *)

(** ** The built-ins on sample text *)

Example parseInt_prefix : Js.parseInt (Some " 42px") = Some 42%Z.
Proof. reflexivity. Qed.

Example parseInt_hex : Js.parseInt (Some "-0x1f") = Some (-31)%Z.
Proof. reflexivity. Qed.

Example parseInt_no_digit : Js.parseInt (Some "abc") = None.
Proof. reflexivity. Qed.

Example parseFloat_exponent : Js.parseFloat (Some "12.50e1abc") = Js.Fin 125.
Proof. vm_compute. reflexivity. Qed.

Example parseFloat_fraction : Js.parseFloat (Some "-.5") = Js.Fin (-1 # 2).
Proof. vm_compute. reflexivity. Qed.

Example parseFloat_overflow : Js.parseFloat (Some "1e999") = Js.Inf false.
Proof. vm_compute. reflexivity. Qed.

Example parseFloat_infinity : Js.parseFloat (Some "-Infinity") = Js.Inf true.
Proof. vm_compute. reflexivity. Qed.

Example parseFloat_absent : Js.parseFloat None = Js.NaN.
Proof. reflexivity. Qed.

Example message_of_missing_email :
  message {| je_key := "Email"; je_type := any_required |}
  = String (ascii_of_nat 34) ("Email" ++ String (ascii_of_nat 34) " is required").
Proof. reflexivity. Qed.

(** ** The monad and the store *)

Lemma store_call_quiet {A} (op : DbOp) (run : M A) (w : World) :
  quiet w -> store_call op run w = run (logged op w).
Proof.
  unfold quiet, store_call, logged. destruct w as [rs us c t n fs l]; simpl.
  intros H. destruct fs as [|[msg|] rest]; simpl; try reflexivity.
  inversion H; discriminate.
Qed.

Lemma quiet_logged (op : DbOp) (w : World) : quiet w -> quiet (logged op w).
Proof.
  unfold quiet, logged. destruct w as [rs us c t n fs l]; simpl.
  intros H. destruct fs; simpl; [constructor | now inversion H].
Qed.

Lemma bind_done {A B} (m : M A) (k : A -> M B) (w : World) a w' :
  m w = (Done a, w') -> bind m k w = k a w'.
Proof. unfold bind. now intros ->. Qed.

Lemma bind_threw {A B} (m : M A) (k : A -> M B) (w : World) msg w' :
  m w = (Threw msg, w') -> bind m k w = (Threw msg, w').
Proof. unfold bind. now intros ->. Qed.

Lemma try_catch_done {A} (body : M A) (handler : string -> M A) (w : World) a w' :
  body w = (Done a, w') -> try_catch body handler w = (Done a, w').
Proof. unfold try_catch. now intros ->. Qed.

Lemma try_catch_threw {A} (body : M A) (handler : string -> M A) (w : World) msg w' :
  body w = (Threw msg, w') -> try_catch body handler w = handler msg w'.
Proof. unfold try_catch. now intros ->. Qed.

Lemma find_by_id_Some id ds d :
  find_by_id id ds = Some d -> doc_id d = id /\ In d ds.
Proof.
  unfold find_by_id. intros H. apply find_some in H as [Hin Heq].
  apply N.eqb_eq in Heq. auto.
Qed.

Lemma find_by_id_update_same id f ds d :
  find_by_id id ds = Some d ->
  find_by_id id (update_by_id id f ds) = Some (with_fields f d).
Proof.
  unfold find_by_id. induction ds as [|x rest IH]; simpl; [discriminate|].
  destruct (N.eqb (doc_id x) id) eqn:Hx; simpl.
  - intros [= ->]. now rewrite Hx.
  - rewrite Hx. exact IH.
Qed.

Lemma find_by_id_update_other id id' f ds :
  id' <> id ->
  find_by_id id' (update_by_id id f ds) = find_by_id id' ds.
Proof.
  unfold find_by_id. intros Hne. induction ds as [|x rest IH]; simpl; [reflexivity|].
  destruct (N.eqb (doc_id x) id) eqn:Hx; simpl.
  - apply N.eqb_eq in Hx.
    destruct (N.eqb (doc_id x) id') eqn:Hx'; [|reflexivity].
    apply N.eqb_eq in Hx'. congruence.
  - now rewrite IH.
Qed.

Lemma update_by_id_absent id f ds :
  find_by_id id ds = None -> update_by_id id f ds = ds.
Proof.
  unfold find_by_id. induction ds as [|x rest IH]; simpl; [reflexivity|].
  destruct (N.eqb (doc_id x) id); [discriminate|].
  intros H. now rewrite IH.
Qed.

Lemma update_by_id_ids id f ds :
  map doc_id (update_by_id id f ds) = map doc_id ds.
Proof.
  induction ds as [|x rest IH]; simpl; [reflexivity|].
  destruct (N.eqb (doc_id x) id); simpl; [reflexivity | now rewrite IH].
Qed.

Lemma get_assign_same k v m : get (assign k v m) k = v.
Proof.
  unfold get, assign. destruct v; simpl;
    rewrite ?lookup_delete_eq, ?lookup_insert_eq; reflexivity.
Qed.

Lemma lookup_assign_other k k' v (m : fields) :
  k <> k' -> assign k v m !! k' = m !! k'.
Proof.
  unfold assign. intros Hne. destruct v;
    rewrite ?lookup_delete_ne, ?lookup_insert_ne by assumption; reflexivity.
Qed.

Lemma get_assign_other k k' v m : k <> k' -> get (assign k v m) k' = get m k'.
Proof. intros Hne. unfold get. now rewrite lookup_assign_other. Qed.

(** What an update document does to one path. *)
Lemma lookup_apply_update (update old : fields) k :
  apply_update update old !! k =
  match update !! k with
  | Some v => if Js.is_undefined v then old !! k else Some v
  | None => old !! k
  end.
Proof.
  unfold apply_update. rewrite lookup_union.
  destruct (update !! k) as [v|] eqn:Hk.
  - destruct (Js.is_undefined v) eqn:Hv.
    + rewrite map_lookup_filter_None_2; [now destruct (old !! k)|].
      right. intros v' Hv'. simpl. congruence.
    + erewrite map_lookup_filter_Some_2; eauto. now destruct (old !! k).
  - rewrite map_lookup_filter_None_2; [now destruct (old !! k)|]. now left.
Qed.

Lemma get_apply_update update old k :
  get (apply_update update old) k =
  match get update k with
  | Js.VUndef => get old k
  | v => v
  end.
Proof.
  unfold get. rewrite lookup_apply_update.
  destruct (update !! k) as [v|]; simpl; [|reflexivity].
  destruct v; reflexivity.
Qed.

Lemma apply_update_idem update old :
  apply_update update (apply_update update old) = apply_update update old.
Proof.
  apply map_eq. intros k. rewrite !lookup_apply_update.
  destruct (update !! k) as [v|]; [|reflexivity].
  destruct (Js.is_undefined v); reflexivity.
Qed.

(** ** The update addressed by [?id=] *)

Lemma lookup_kept (data : fields) k :
  filter (fun kv : string * Js.value =>
            negb (Js.is_empty_string (snd kv)) && negb (Js.is_undefined (snd kv)) = true)
         data !! k =
  match data !! k with
  | Some v => if Js.is_empty_string v || Js.is_undefined v then None else Some v
  | None => None
  end.
Proof.
  destruct (data !! k) as [v|] eqn:Hk.
  - destruct (Js.is_empty_string v || Js.is_undefined v) eqn:Hv.
    + apply map_lookup_filter_None_2. right. intros v' Hv'. simpl.
      assert (v' = v) as -> by congruence.
      rewrite <- negb_orb, Hv. discriminate.
    + apply map_lookup_filter_Some_2; [assumption|]. simpl.
      now rewrite <- negb_orb, Hv.
  - apply map_lookup_filter_None_2. now left.
Qed.

Lemma apply_update_defined (update old : fields) :
  (forall k v, update !! k = Some v -> Js.is_undefined v = false) ->
  apply_update update old = update ∪ old.
Proof.
  intros H. apply map_eq. intros k.
  rewrite lookup_apply_update, lookup_union.
  destruct (update !! k) as [v|] eqn:Hk.
  - rewrite (H k v Hk). now destruct (old !! k).
  - now destruct (old !! k).
Qed.

(** C5. The update addressed by [?id=] drops from the payload every field
    whose value is the empty string or undefined.  When nothing is left it
    answers 400 "No valid fields to update" and the world is untouched: no
    store call, no write.  Otherwise the one store call it makes is an
    update of the target by the fields that are left, with the validators
    switched on; when the store lets it through and the target exists, the
    answer is the updated document, in which the fields that are left have
    their new value and every other field its old one, and no other
    document changes. *)
Theorem full_update_drops_blank_fields (id : Id) (data : fields) (w : World) :
  let kept : fields :=
    filter (fun kv : string * Js.value =>
              negb (Js.is_empty_string (snd kv)) && negb (Js.is_undefined (snd kv)) = true)
           data in
  let result := RecordController.updateRecord id (Some data) w in
  (forall k, kept !! k =
     match data !! k with
     | Some v => if Js.is_empty_string v || Js.is_undefined v then None else Some v
     | None => None
     end) /\
  (kept = ∅ ->
     result = (Done {| status := 400; body := BError "No valid fields to update" |}, w)) /\
  (kept <> ∅ ->
     w_log (snd result) = (w_log w ++ [RecordFindByIdAndUpdate id kept true])%list) /\
  (kept <> ∅ -> quiet w ->
   forall target, find_by_id id (w_records w) = Some target ->
     let updated := with_fields (fun old => kept ∪ old) target in
     fst result = Done (json (BDoc (Some updated))) /\
     find_by_id id (w_records (snd result)) = Some updated /\
     (forall k v, kept !! k = Some v -> doc_fields updated !! k = Some v) /\
     (forall k, kept !! k = None -> doc_fields updated !! k = doc_fields target !! k) /\
     (forall id', id' <> id ->
        find_by_id id' (w_records (snd result)) = find_by_id id' (w_records w))).
Proof.
  intros kept result.
  assert (Hkept : forall k, kept !! k = match data !! k with
     | Some v => if Js.is_empty_string v || Js.is_undefined v then None else Some v
     | None => None
     end) by (intros k; apply lookup_kept).
  assert (Hsize : forall b, (size kept =? 0)%nat = b -> (kept = ∅ <-> b = true)).
  { intros b <-. rewrite Nat.eqb_eq. symmetry. apply map_size_empty_iff. }
  split; [exact Hkept|].
  split; [|split].
  - intros Hempty. subst result. unfold RecordController.updateRecord, try_catch, bind, ret.
    simpl. fold kept. rewrite Hempty. reflexivity.
  - intros Hne. subst result. unfold RecordController.updateRecord, try_catch, bind, ret.
    simpl. fold kept.
    destruct (size kept =? 0)%nat eqn:Hs; [now apply Hsize in Hs|].
    unfold record_find_by_id_and_update, store_call.
    destruct (w_faults w) as [|[msg|] rest]; reflexivity.
  - intros Hne Hq target Htarget updated.
    assert (Hdef : forall k v, kept !! k = Some v -> Js.is_undefined v = false).
    { intros k v. rewrite Hkept. destruct (data !! k) as [x|]; [|discriminate].
      destruct (Js.is_empty_string x || Js.is_undefined x) eqn:Hx; [discriminate|].
      intros [= <-]. now apply orb_false_elim in Hx. }
    assert (Hrun : result =
      (Done (json (BDoc (find_by_id id (update_by_id id (apply_update kept) (w_records w))))),
       set_records (update_by_id id (apply_update kept) (w_records w))
         (logged (RecordFindByIdAndUpdate id kept true) w))).
    { subst result. unfold RecordController.updateRecord, try_catch, bind, ret.
      simpl. fold kept.
      destruct (size kept =? 0)%nat eqn:Hs; [now apply Hsize in Hs|].
      unfold record_find_by_id_and_update. rewrite store_call_quiet by assumption.
      reflexivity. }
    rewrite Hrun. simpl.
    rewrite (find_by_id_update_same _ _ _ _ Htarget).
    assert (Hupd : with_fields (apply_update kept) target = updated).
    { unfold updated, with_fields. f_equal. now apply apply_update_defined. }
    rewrite Hupd. repeat split.
    + intros k v Hk. unfold updated; simpl. rewrite lookup_union, Hk.
      now destruct (doc_fields target !! k).
    + intros k Hk. unfold updated; simpl. rewrite lookup_union, Hk.
      now destruct (doc_fields target !! k).
    + intros id' Hid'. now apply find_by_id_update_other.
Qed.

(** ** The notes-only update *)

(** C8. On a request with a body that the store lets through, the
    notes-only update of an existing record answers 200 with the message
    and the record; in the stored record [Notes] is the supplied note and
    [NoteDate] the supplied date, every other field is as it was, and no
    other record changes.  When no record has the identifier it answers
    404 and the records stay as they were.  Users and cache are never
    touched. *)
Theorem notes_update_touches_two_fields (id : Id) (data : fields) (w : World) :
  quiet w ->
  let note := get data "note" in
  let noteDate := get data "noteDate" in
  let result := RecordController.updateRecordNotes id (Some data) w in
  (forall target, find_by_id id (w_records w) = Some target ->
     exists record,
       fst result =
         Done {| status := 200; body := BNote "Note updated successfully" record |} /\
       find_by_id id (w_records (snd result)) = Some record /\
       doc_id record = id /\
       get (doc_fields record) "Notes" = note /\
       get (doc_fields record) "NoteDate" = noteDate /\
       (forall k, k <> "Notes" -> k <> "NoteDate" ->
          doc_fields record !! k = doc_fields target !! k) /\
       (forall id', id' <> id ->
          find_by_id id' (w_records (snd result)) = find_by_id id' (w_records w))) /\
  (find_by_id id (w_records w) = None ->
     fst result = Done {| status := 404; body := BError "Record not found" |} /\
     w_records (snd result) = w_records w) /\
  w_users (snd result) = w_users w /\
  w_cache (snd result) = w_cache w.
Proof.
  intros Hq note noteDate result.
  pose (w1 := logged (RecordFindById id) w).
  assert (Hq1 : quiet w1) by now apply quiet_logged.
  assert (Hrun : result =
    match find_by_id id (w_records w) with
    | None => (Done {| status := 404; body := BError "Record not found" |}, w1)
    | Some found =>
        let record :=
          with_fields (fun old => assign "NoteDate" noteDate (assign "Notes" note old))
                      found in
        (Done {| status := 200; body := BNote "Note updated successfully" record |},
         set_records (update_by_id (doc_id record) (fun _ => doc_fields record)
                                   (w_records w))
                     (logged (RecordSave record) w1))
    end).
  { subst result. unfold RecordController.updateRecordNotes, try_catch, bind, ret.
    unfold record_find_by_id. rewrite store_call_quiet by assumption.
    unfold read. fold w1. change (w_records w1) with (w_records w).
    destruct (find_by_id id (w_records w)) as [found|]; [|reflexivity].
    unfold save_record. rewrite store_call_quiet by assumption. reflexivity. }
  rewrite Hrun. split; [|split].
  - intros target Htarget. rewrite Htarget. cbv zeta.
    destruct (find_by_id_Some _ _ _ Htarget) as [Hid _].
    eexists. split; [reflexivity|]. simpl.
    rewrite Hid. rewrite (find_by_id_update_same _ _ _ _ Htarget).
    split; [reflexivity|]. split; [reflexivity|].
    split; [|split; [|split]].
    + rewrite get_assign_other by discriminate. apply get_assign_same.
    + apply get_assign_same.
    + intros k Hk1 Hk2. rewrite !lookup_assign_other by congruence. reflexivity.
    + intros id' Hid'. now apply find_by_id_update_other.
  - intros Hnone. rewrite Hnone. split; reflexivity.
  - destruct (find_by_id id (w_records w)); split; reflexivity.
Qed.

(** ** The cascade *)

Lemma find_by_id_stored ds d :
  NoDup (map doc_id ds) -> In d ds -> find_by_id (doc_id d) ds = Some d.
Proof.
  unfold find_by_id. induction ds as [|x rest IH]; simpl; [tauto|].
  intros Hnd [-> | Hin].
  - now rewrite N.eqb_refl.
  - apply NoDup_cons in Hnd as [Hx Hnd].
    destruct (N.eqb (doc_id x) (doc_id d)) eqn:Heq; [|now apply IH].
    apply N.eqb_eq in Heq. exfalso. apply Hx. rewrite Heq.
    apply list_elem_of_In. now apply in_map.
Qed.

(** The records once each of [targets] has been updated by its
    identifier, in order. *)
Lemma find_by_id_after_updates (f : fields -> fields) id' (targets ds : list Doc) d :
  (forall m, f (f m) = f m) ->
  find_by_id id' ds = Some d ->
  find_by_id id'
    (fold_left (fun rs r => update_by_id (doc_id r) f rs) targets ds) =
  Some (if existsb (fun r => N.eqb (doc_id r) id') targets then with_fields f d else d).
Proof.
  intros Hidem. revert ds d.
  induction targets as [|r rest IH]; intros ds d Hd; simpl; [assumption|].
  destruct (N.eqb (doc_id r) id') eqn:Hr; simpl.
  - apply N.eqb_eq in Hr. subst id'.
    rewrite (IH _ (with_fields f d)) by now apply find_by_id_update_same.
    unfold with_fields; simpl. rewrite Hidem. now destruct (existsb _ rest).
  - apply IH. rewrite find_by_id_update_other; [assumption|].
    intros ->. now rewrite N.eqb_refl in Hr.
Qed.

Lemma all_of_updates_quiet (data : fields) (targets : list Doc) (w : World) :
  quiet w ->
  exists outs w',
    all_of (fun r => record_find_by_id_and_update (doc_id r) data false) targets w
      = (Done outs, w') /\
    quiet w' /\
    w_records w' =
      fold_left (fun rs r => update_by_id (doc_id r) (apply_update data) rs)
                targets (w_records w) /\
    w_users w' = w_users w /\ w_cache w' = w_cache w.
Proof.
  revert w. induction targets as [|r rest IH]; intros w Hq; simpl.
  - exists [], w. repeat split; assumption.
  - unfold record_find_by_id_and_update at 1. rewrite store_call_quiet by assumption.
    set (w1 := set_records _ _).
    assert (Hq1 : quiet w1) by (apply (quiet_logged (RecordFindByIdAndUpdate (doc_id r) data false)) in Hq; exact Hq).
    destruct (IH w1 Hq1) as (outs & w' & Hrun & Hq' & Hrs & Hus & Hc).
    rewrite Hrun. eexists _, w'. split; [reflexivity|]. repeat split; assumption.
Qed.

(** The run of the cascade on an existing target, the store letting every
    call through. *)
Lemma cascade_run (E : Collab) (id : Id) (data : fields) (w : World) (target : Doc) :
  quiet w ->
  find_by_id id (w_records w) = Some target ->
  let f := apply_update data in
  let email := get (f (doc_fields target)) "Email" in
  let rs1 := update_by_id id f (w_records w) in
  let sibs := List.filter (matches E [Field "Email" (CEq email)]) rs1 in
  let result := MountedController.updateRecord E id (Some data) w in
  fst result =
    Done {| status := 200;
            body := BMessage "Records and user details updated successfully" |} /\
  w_records (snd result) =
    fold_left (fun rs r => update_by_id (doc_id r) f rs) sibs rs1 /\
  w_users (snd result) =
    match List.find (matches E [Field "Email_Address" (CEq email)]) (w_users w) with
    | Some u =>
        update_by_id (doc_id u)
          (apply_update (MountedController.updatedUserDetails data (doc_fields u)))
          (w_users w)
    | None => w_users w
    end /\
  w_cache (snd result) = w_cache w.
Proof.
  intros Hq Htarget f email rs1 sibs result.
  set (w1 := set_records rs1 (logged (RecordFindByIdAndUpdate id data false) w)).
  assert (H1 : record_find_by_id_and_update id data false w
               = (Done (Some (with_fields f target)), w1)).
  { unfold record_find_by_id_and_update. rewrite store_call_quiet by assumption.
    cbv beta. change (w_records (logged _ w)) with (w_records w).
    fold f. fold rs1. unfold rs1 at 1.
    now rewrite (find_by_id_update_same _ _ _ _ Htarget). }
  assert (Hq1 : quiet w1).
  { apply (quiet_logged (RecordFindByIdAndUpdate id data false)) in Hq. exact Hq. }
  set (w2 := logged (RecordFind [Field "Email" (CEq email)]) w1).
  assert (H2 : find_records E [Field "Email" (CEq email)] w1 = (Done sibs, w2)).
  { unfold find_records. now rewrite store_call_quiet by assumption. }
  assert (Hq2 : quiet w2) by now apply quiet_logged.
  destruct (all_of_updates_quiet data sibs w2 Hq2)
    as (outs & w3 & H3 & Hq3 & Hrs & Hus & Hc).
  set (w4 := logged (UserFindOne [Field "Email_Address" (CEq email)]) w3).
  assert (H4 : user_find_one E [Field "Email_Address" (CEq email)] w3
               = (Done (List.find (matches E [Field "Email_Address" (CEq email)])
                                  (w_users w)), w4)).
  { unfold user_find_one. rewrite store_call_quiet by assumption.
    unfold read. change (w_users (logged _ w3)) with (w_users w3). now rewrite Hus. }
  assert (Hq4 : quiet w4) by now apply quiet_logged.
  assert (Hbody : forall tail_w,
    (forall found,
       found = List.find (matches E [Field "Email_Address" (CEq email)]) (w_users w) ->
       match found with
       | Some userDetails =>
           bind (user_find_by_id_and_update (doc_id userDetails)
                   (MountedController.updatedUserDetails data (doc_fields userDetails)))
                (fun _ => ret tt)
       | None => ret tt
       end w4 = (Done tt, tail_w)) ->
    result =
      (Done {| status := 200;
               body := BMessage "Records and user details updated successfully" |},
       tail_w)).
  { intros tail_w Htail. subst result. unfold MountedController.updateRecord.
    apply try_catch_done.
    rewrite (bind_done _ _ _ _ _ H1). cbv beta iota.
    change (doc_fields (with_fields f target)) with (f (doc_fields target)).
    fold email.
    rewrite (bind_done _ _ _ _ _ H2). cbv beta.
    rewrite (bind_done _ _ _ _ _ H3). cbv beta.
    rewrite (bind_done _ _ _ _ _ H4). cbv beta.
    erewrite bind_done; [reflexivity|]. now apply Htail. }
  destruct (List.find (matches E [Field "Email_Address" (CEq email)]) (w_users w))
    as [u|] eqn:Hfind.
  - rewrite (Hbody
      (set_users (update_by_id (doc_id u)
                    (apply_update (MountedController.updatedUserDetails data (doc_fields u)))
                    (w_users w4))
                 (logged (UserFindByIdAndUpdate (doc_id u)
                            (MountedController.updatedUserDetails data (doc_fields u))) w4))).
    + simpl. rewrite Hus.
      repeat split; assumption.
    + intros found ->. erewrite bind_done; [reflexivity|].
      unfold user_find_by_id_and_update. now rewrite store_call_quiet by assumption.
  - rewrite (Hbody w4).
    + simpl. repeat split; assumption.
    + intros found ->. reflexivity.
Qed.

Lemma with_fields_idem (f : fields -> fields) d :
  (forall m, f (f m) = f m) -> with_fields f (with_fields f d) = with_fields f d.
Proof. intros H. unfold with_fields; simpl. now rewrite H. Qed.

Lemma matches_equality (E : Collab) k v d :
  matches E [Field k (CEq v)] d = query_eq (get (doc_fields d) k) v.
Proof. unfold matches; simpl. apply andb_true_r. Qed.

(** What the cascade leaves in the Record collection: the target and the
    records whose Email is the updated record's carry the payload, the
    others are as they were. *)
Lemma cascade_records (E : Collab) (id : Id) (data : fields) (w : World) (target : Doc) :
  quiet w ->
  NoDup (map doc_id (w_records w)) ->
  find_by_id id (w_records w) = Some target ->
  let f := apply_update data in
  let email := get (f (doc_fields target)) "Email" in
  let after := snd (MountedController.updateRecord E id (Some data) w) in
  forall d, In d (w_records w) ->
    find_by_id (doc_id d) (w_records after) =
    Some (if N.eqb (doc_id d) id || query_eq (get (doc_fields d) "Email") email
          then with_fields f d else d).
Proof.
  intros Hq Hnd Htarget f email after d Hd.
  destruct (cascade_run E id data w target Hq Htarget) as (_ & Hrs & _ & _).
  fold f email after in Hrs. rewrite Hrs. clear Hrs.
  assert (Hidem : forall m, f (f m) = f m) by (intros m; apply apply_update_idem).
  set (rs1 := update_by_id id f (w_records w)).
  assert (Hnd1 : NoDup (map doc_id rs1)) by (unfold rs1; now rewrite update_by_id_ids).
  pose proof (find_by_id_stored _ _ Hnd Hd) as Hstored.
  destruct (N.eqb (doc_id d) id) eqn:Hid; simpl.
  - apply N.eqb_eq in Hid. rewrite Hid in *.
    assert (d = target) as -> by congruence.
    rewrite (find_by_id_after_updates f id _ rs1 (with_fields f target) Hidem)
      by (now apply find_by_id_update_same).
    rewrite with_fields_idem by assumption. now destruct (existsb _ _).
  - assert (Hne : doc_id d <> id) by (intros H; rewrite H, N.eqb_refl in Hid; discriminate).
    assert (Hd1 : find_by_id (doc_id d) rs1 = Some d).
    { unfold rs1. now rewrite find_by_id_update_other. }
    rewrite (find_by_id_after_updates f (doc_id d) _ rs1 d Hidem Hd1).
    f_equal.
    destruct (existsb _ _) eqn:Hex.
    + apply existsb_exists in Hex as (r & Hr & Hrid).
      apply filter_In in Hr as [Hr Hm]. apply N.eqb_eq in Hrid.
      pose proof (find_by_id_stored _ _ Hnd1 Hr) as Hr1.
      rewrite Hrid, Hd1 in Hr1. injection Hr1 as <-.
      rewrite matches_equality in Hm. now rewrite Hm.
    + destruct (query_eq _ email) eqn:Hm; [|reflexivity].
      exfalso. apply find_by_id_Some in Hd1 as [_ Hin].
      assert (Hsib : In d (List.filter (matches E [Field "Email" (CEq email)]) rs1)).
      { apply filter_In. split; [assumption|]. now rewrite matches_equality. }
      assert (Htrue : existsb (fun r => N.eqb (doc_id r) (doc_id d))
                (List.filter (matches E [Field "Email" (CEq email)]) rs1) = true).
      { apply existsb_exists. exists d. split; [assumption | apply N.eqb_refl]. }
      congruence.
Qed.

Lemma get_updatedUserDetails data old k k' :
  In (k, k') user_paths ->
  get (MountedController.updatedUserDetails data old) k
  = Js.or_else (get data k') (get old k).
Proof.
  unfold user_paths. simpl.
  intros [H | [H | [H | [H | []]]]]; injection H as <- <-;
    unfold MountedController.updatedUserDetails, get at 1;
    repeat (rewrite lookup_insert_ne by discriminate);
    now rewrite lookup_insert_eq.
Qed.

(** One path of the User after the cascade: the payload's value when it
    is truthy, the value the User had otherwise. *)
Lemma user_path_after data old k k' :
  In (k, k') user_paths ->
  get (apply_update (MountedController.updatedUserDetails data old) old) k
  = Js.or_else (get data k') (get old k).
Proof.
  intros Hk. rewrite get_apply_update, (get_updatedUserDetails _ _ _ _ Hk).
  unfold Js.or_else. destruct (Js.truthy (get data k')) eqn:Ht.
  - destruct (get data k'); try reflexivity. discriminate.
  - now destruct (get old k).
Qed.

Lemma cascade_user (E : Collab) (id : Id) (data : fields) (w : World) (target : Doc) :
  quiet w ->
  NoDup (map doc_id (w_users w)) ->
  find_by_id id (w_records w) = Some target ->
  let email := get (apply_update data (doc_fields target)) "Email" in
  let after := snd (MountedController.updateRecord E id (Some data) w) in
  match List.find (matches E [Field "Email_Address" (CEq email)]) (w_users w) with
  | Some u =>
      find_by_id (doc_id u) (w_users after) =
      Some (with_fields
              (apply_update (MountedController.updatedUserDetails data (doc_fields u))) u)
      /\ (forall id', id' <> doc_id u ->
            find_by_id id' (w_users after) = find_by_id id' (w_users w))
  | None => w_users after = w_users w
  end.
Proof.
  intros Hq Hnd Htarget email after.
  destruct (cascade_run E id data w target Hq Htarget) as (_ & _ & Hus & _).
  fold email after in Hus. rewrite Hus. clear Hus.
  destruct (List.find _ (w_users w)) as [u|] eqn:Hfind; [|reflexivity].
  apply find_some in Hfind as [Hin _]. split.
  - apply find_by_id_update_same. now apply find_by_id_stored.
  - intros id' Hid'. now apply find_by_id_update_other.
Qed.

(** C2, as the code has it.  A cascade update of an existing record, the
    store letting every call through, answers 200 and leaves the payload
    applied to the target and to every record whose Email is the updated
    record's Email, while every other record is as it was.  The first User
    whose Email_Address is that Email has each of Model_Type, Stage_Name,
    Model_Insta_Link and Email_Address set to the payload's value when
    that value is truthy, and as before when the payload omits the key it
    is read from or gives it a falsy value.  In particular a payload that
    leaves Email alone reaches every record that shares the target's
    Email: each of them ends with every field of the payload, Magazine
    among them. *)
Theorem cascade_update_reaches_siblings_and_user
  (E : Collab) (id : Id) (data : fields) (w : World) (target : Doc) :
  quiet w ->
  NoDup (map doc_id (w_records w)) ->
  NoDup (map doc_id (w_users w)) ->
  find_by_id id (w_records w) = Some target ->
  let updated := with_fields (apply_update data) target in
  let email := get (doc_fields updated) "Email" in
  let result := MountedController.updateRecord E id (Some data) w in
  let after := snd result in
  fst result =
    Done {| status := 200;
            body := BMessage "Records and user details updated successfully" |} /\
  find_by_id id (w_records after) = Some updated /\
  (forall d, In d (w_records w) ->
     query_eq (get (doc_fields d) "Email") email = true ->
     find_by_id (doc_id d) (w_records after) = Some (with_fields (apply_update data) d)) /\
  (forall d, In d (w_records w) -> doc_id d <> id ->
     query_eq (get (doc_fields d) "Email") email = false ->
     find_by_id (doc_id d) (w_records after) = Some d) /\
  (forall u,
     List.find (matches E [Field "Email_Address" (CEq email)]) (w_users w) = Some u ->
     exists u',
       find_by_id (doc_id u) (w_users after) = Some u' /\
       forall k k', In (k, k') user_paths ->
         (Js.truthy (get data k') = true -> get (doc_fields u') k = get data k') /\
         (data !! k' = None -> get (doc_fields u') k = get (doc_fields u) k) /\
         (Js.truthy (get data k') = false ->
            get (doc_fields u') k = get (doc_fields u) k)) /\
  (data !! "Email" = None ->
   forall d k v, In d (w_records w) ->
     query_eq (get (doc_fields d) "Email") (get (doc_fields target) "Email") = true ->
     data !! k = Some v -> v <> Js.VUndef ->
     exists d',
       find_by_id (doc_id d) (w_records after) = Some d' /\ get (doc_fields d') k = v).
Proof.
  intros Hq Hnd Hndu Htarget updated email result after.
  pose proof (cascade_records E id data w target Hq Hnd Htarget) as Hrecords.
  cbv zeta in Hrecords. fold result after in Hrecords.
  change (get (apply_update data (doc_fields target)) "Email") with email in Hrecords.
  destruct (find_by_id_Some _ _ _ Htarget) as [Hid Hin].
  assert (Hsib : forall d, In d (w_records w) ->
     query_eq (get (doc_fields d) "Email") email = true ->
     find_by_id (doc_id d) (w_records after) = Some (with_fields (apply_update data) d)).
  { intros d Hd Hm. rewrite (Hrecords d Hd), Hm. now rewrite orb_true_r. }
  split; [|split; [|split; [|split; [|split]]]].
  - now destruct (cascade_run E id data w target Hq Htarget) as (Hfst & _).
  - specialize (Hrecords target Hin). rewrite Hid, N.eqb_refl in Hrecords. exact Hrecords.
  - exact Hsib.
  - intros d Hd Hne Hm. rewrite (Hrecords d Hd), Hm.
    apply N.eqb_neq in Hne. now rewrite Hne.
  - intros u Hu.
    pose proof (cascade_user E id data w target Hq Hndu Htarget) as Huser.
    cbv zeta in Huser. fold result after in Huser.
    change (get (apply_update data (doc_fields target)) "Email") with email in Huser.
    rewrite Hu in Huser. destruct Huser as [Huser _].
    eexists. split; [exact Huser|].
    intros k k' Hk. simpl. rewrite (user_path_after _ _ _ _ Hk). split; [|split].
    + intros Ht. unfold Js.or_else. now rewrite Ht.
    + intros Hnone. unfold get at 1. now rewrite Hnone.
    + intros Hf. unfold Js.or_else. now rewrite Hf.
  - intros Hno d k v Hd Hm Hk Hv.
    assert (Hemail : email = get (doc_fields target) "Email").
    { unfold email, updated; simpl. rewrite get_apply_update.
      unfold get at 1. now rewrite Hno. }
    rewrite <- Hemail in Hm.
    eexists. split; [exact (Hsib d Hd Hm)|].
    simpl. rewrite get_apply_update. unfold get at 1. rewrite Hk; simpl.
    now destruct v.
Qed.

(** C9. In the cascade, the store letting every call through, a payload
    field that is the empty string is written as it is to the target and
    to every record whose Email is the updated record's Email, while the
    User keeps what it had on each path whose payload value is falsy, the
    empty string included; so one update can leave a record and the User
    with different values on the same field. *)
Theorem cascade_empty_string_skips_user
  (E : Collab) (id : Id) (data : fields) (w : World) (target : Doc) :
  quiet w ->
  NoDup (map doc_id (w_records w)) ->
  NoDup (map doc_id (w_users w)) ->
  find_by_id id (w_records w) = Some target ->
  let email := get (apply_update data (doc_fields target)) "Email" in
  let after := snd (MountedController.updateRecord E id (Some data) w) in
  (forall d key, In d (w_records w) ->
     (doc_id d = id \/ query_eq (get (doc_fields d) "Email") email = true) ->
     data !! key = Some (Js.VStr EmptyString) ->
     exists d',
       find_by_id (doc_id d) (w_records after) = Some d' /\
       get (doc_fields d') key = Js.VStr EmptyString) /\
  (forall u,
     List.find (matches E [Field "Email_Address" (CEq email)]) (w_users w) = Some u ->
     exists u',
       find_by_id (doc_id u) (w_users after) = Some u' /\
       forall k k', In (k, k') user_paths ->
         Js.truthy (get data k') = false ->
         get (doc_fields u') k = get (doc_fields u) k) /\
  (exists (w0 : World) (id0 : Id) (data0 : fields) (d' u' : Doc),
     let after0 := snd (MountedController.updateRecord E id0 (Some data0) w0) in
     find_by_id id0 (w_records after0) = Some d' /\
     List.find (matches E [Field "Email_Address" (CEq (get (doc_fields d') "Email"))])
               (w_users after0) = Some u' /\
     get (doc_fields d') "Stage_Name" <> get (doc_fields u') "Stage_Name").
Proof.
  intros Hq Hnd Hndu Htarget email after.
  split; [|split].
  - intros d key Hd Hsel Hkey.
    pose proof (cascade_records E id data w target Hq Hnd Htarget d Hd) as Hrec.
    cbv zeta in Hrec. fold email after in Hrec.
    assert (Hcond : N.eqb (doc_id d) id
                    || query_eq (get (doc_fields d) "Email") email = true).
    { destruct Hsel as [-> | ->]; [now rewrite N.eqb_refl | apply orb_true_r]. }
    rewrite Hcond in Hrec. eexists. split; [exact Hrec|].
    simpl. rewrite get_apply_update. unfold get at 1. now rewrite Hkey.
  - intros u Hu.
    pose proof (cascade_user E id data w target Hq Hndu Htarget) as Huser.
    cbv zeta in Huser. fold email after in Huser.
    rewrite Hu in Huser. destruct Huser as [Huser _].
    eexists. split; [exact Huser|].
    intros k k' Hk Hfalsy. simpl. rewrite (user_path_after _ _ _ _ Hk).
    unfold Js.or_else. now rewrite Hfalsy.
  - exists Sample.world, 2%N, Sample.blank_stage.
    exists (with_fields (apply_update Sample.blank_stage) Sample.r2), Sample.u1.
    cbv zeta. split; [|split].
    + vm_compute. reflexivity.
    + vm_compute. reflexivity.
    + vm_compute. discriminate.
Qed.

(** ** Commands that leave the cache alone *)

Lemma keeps_cache_ret {A} (a : A) : keeps_cache (ret a).
Proof. intros w. reflexivity. Qed.

Lemma keeps_cache_throw {A} msg : keeps_cache (@throw A msg).
Proof. intros w. reflexivity. Qed.

Lemma keeps_cache_read {A} (f : World -> A) : keeps_cache (read f).
Proof. intros w. reflexivity. Qed.

Lemma keeps_cache_bind {A B} (m : M A) (k : A -> M B) :
  keeps_cache m -> (forall a, keeps_cache (k a)) -> keeps_cache (bind m k).
Proof.
  intros Hm Hk w. unfold bind. specialize (Hm w).
  destruct (m w) as [[a | msg] w1]; simpl in *.
  - now rewrite Hk.
  - assumption.
Qed.

Lemma keeps_cache_try_catch {A} (body : M A) (handler : string -> M A) :
  keeps_cache body -> (forall msg, keeps_cache (handler msg)) ->
  keeps_cache (try_catch body handler).
Proof.
  intros Hb Hh w. unfold try_catch. specialize (Hb w).
  destruct (body w) as [[a | msg] w1]; simpl in *.
  - assumption.
  - now rewrite Hh.
Qed.

Lemma keeps_cache_store_call {A} op (run : M A) :
  keeps_cache run -> keeps_cache (store_call op run).
Proof.
  intros Hrun w. unfold store_call.
  destruct (w_faults w) as [|[msg|] rest]; try reflexivity; now rewrite Hrun.
Qed.

Lemma keeps_cache_all_of {A B} (f : A -> M B) (xs : list A) :
  (forall x, keeps_cache (f x)) -> keeps_cache (all_of f xs).
Proof.
  intros Hf. induction xs as [|x rest IH]; intros w; simpl; [reflexivity|].
  pose proof (Hf x w) as Hx.
  destruct (f x w) as [[b | msg] w1]; simpl in *.
  - pose proof (IH w1) as Hrest.
    destruct (all_of f rest w1) as [[bs | msg] w2]; simpl in *; congruence.
  - rewrite IH. assumption.
Qed.

Ltac frame_cache :=
  repeat first
    [ apply keeps_cache_bind; [|intros ?]
    | apply keeps_cache_try_catch; [|intros ?]
    | apply keeps_cache_store_call
    | apply keeps_cache_all_of; intros ?
    | apply keeps_cache_ret
    | apply keeps_cache_throw
    | apply keeps_cache_read
    | match goal with |- keeps_cache (match ?x with _ => _ end) => destruct x end
    | match goal with |- keeps_cache (if ?x then _ else _) => destruct x end
    | (intros ?; reflexivity) ].

Lemma createRecord_keeps_cache (E : Collab) body :
  keeps_cache (RecordController.createRecord E body).
Proof.
  unfold RecordController.createRecord, insert_record. frame_cache.
Qed.

Lemma updateRecord_keeps_cache id body :
  keeps_cache (RecordController.updateRecord id body).
Proof.
  unfold RecordController.updateRecord, record_find_by_id_and_update. frame_cache.
Qed.

Lemma updateRecordNotes_keeps_cache id body :
  keeps_cache (RecordController.updateRecordNotes id body).
Proof.
  unfold RecordController.updateRecordNotes, record_find_by_id, save_record, write.
  frame_cache.
Qed.

Lemma deleteRecord_keeps_cache id :
  keeps_cache (RecordController.deleteRecord id).
Proof.
  unfold RecordController.deleteRecord, record_find_by_id_and_delete. frame_cache.
Qed.

Lemma cascade_keeps_cache (E : Collab) id body :
  keeps_cache (MountedController.updateRecord E id body).
Proof.
  unfold MountedController.updateRecord, record_find_by_id_and_update, find_records,
    user_find_one, user_find_by_id_and_update.
  frame_cache.
Qed.

Lemma write_step_cache (E : Collab) w w' :
  write_step E w w' -> w_cache w' = w_cache w.
Proof.
  intros H. destruct H.
  - apply createRecord_keeps_cache.
  - apply updateRecord_keeps_cache.
  - apply cascade_keeps_cache.
  - apply updateRecordNotes_keeps_cache.
  - apply deleteRecord_keeps_cache.
  - reflexivity.
  - reflexivity.
Qed.

(** ** The list endpoint *)

Lemma cache_get_run (k : CacheKey) (w : World) :
  cache_get k w = (Done (cached_at k w), w).
Proof. reflexivity. Qed.

(** A hit: the stored response, and nothing else happens. *)
Lemma getRecords_hit (E : Collab) (query : RawQuery) (w : World) data :
  cached_at (cache_key E query) w = Some data ->
  RecordController.getRecords E query w = (Done (json (BList data)), w).
Proof.
  intros Hhit. unfold RecordController.getRecords.
  apply try_catch_done.
  rewrite (bind_done _ _ _ _ _ (cache_get_run _ w)).
  fold (filter_of E query). fold (cache_key E query). now rewrite Hhit.
Qed.

Lemma find_records_run (E : Collab) (q : Query) (w : World) :
  quiet w ->
  find_records E q w = (Done (matching E q w), logged (RecordFind q) w).
Proof. intros Hq. unfold find_records. now rewrite store_call_quiet. Qed.

Lemma find_records_paged_run (E : Collab) (q : Query) (skip limit : Z) (w : World) :
  quiet w -> (0 <= skip)%Z ->
  find_records_paged E q skip limit w =
  (Done (let rest := drop (Z.to_nat skip) (matching E q w) in
         if (limit =? 0)%Z then rest else take (Z.abs_nat limit) rest),
   logged (RecordFindPaged q skip limit) w).
Proof.
  intros Hq Hskip. unfold find_records_paged. rewrite store_call_quiet by assumption.
  apply Z.ltb_ge in Hskip. now rewrite Hskip.
Qed.

Lemma count_documents_run (E : Collab) (q : Query) (w : World) :
  quiet w ->
  count_documents E q w =
  (Done (Z.of_nat (length (matching E q w))), logged (RecordCount q) w).
Proof. intros Hq. unfold count_documents. now rewrite store_call_quiet. Qed.

Lemma aggregate_total_run (E : Collab) (q : Query) (w : World) :
  quiet w ->
  aggregate_total E q w =
  (Done (match matching E q w with
         | [] => []
         | ds => [fold_left sum_step ds (Js.Fin 0)]
         end),
   logged (RecordSumAmount q) w).
Proof. intros Hq. unfold aggregate_total. now rewrite store_call_quiet. Qed.

Lemma getRecords_miss_unpaged (E : Collab) (query : RawQuery) (w : World) :
  cached_at (cache_key E query) w = None ->
  amount_only query = true ->
  quiet w ->
  RecordController.getRecords E query w =
  (Done (json (BList (unpaged_response E query w))),
   stored (cache_key E query) (unpaged_response E query w)
          (logged (RecordFind (filter_of E query)) w)).
Proof.
  intros Hmiss Hmode Hq. unfold RecordController.getRecords.
  apply try_catch_done.
  rewrite (bind_done _ _ _ _ _ (cache_get_run _ w)).
  fold (filter_of E query). fold (cache_key E query). rewrite Hmiss.
  fold (amount_only query). rewrite Hmode.
  rewrite (bind_done _ _ _ _ _ (find_records_run E _ w Hq)).
  reflexivity.
Qed.

Lemma getRecords_miss_paged (E : Collab) (query : RawQuery) (w : World) :
  cached_at (cache_key E query) w = None ->
  amount_only query = false ->
  quiet w ->
  (0 <= (page_of query - 1) * limit_of query)%Z ->
  let ops := [ RecordFindPaged (filter_of E query)
                 ((page_of query - 1) * limit_of query) (limit_of query);
               RecordCount (filter_of E query);
               RecordSumAmount (filter_of E query) ] in
  RecordController.getRecords E query w =
  (Done (json (BList (paged_response E query w))),
   stored (cache_key E query) (paged_response E query w)
          (fold_left (fun w op => logged op w) ops w)).
Proof.
  intros Hmiss Hmode Hq Hskip ops. unfold RecordController.getRecords.
  apply try_catch_done.
  rewrite (bind_done _ _ _ _ _ (cache_get_run _ w)).
  fold (filter_of E query). fold (cache_key E query). rewrite Hmiss.
  fold (amount_only query). rewrite Hmode.
  fold (page_of query). fold (limit_of query).
  rewrite (bind_done _ _ _ _ _ (find_records_paged_run E _ _ _ w Hq Hskip)).
  set (w1 := logged _ w).
  assert (Hq1 : quiet w1) by now apply quiet_logged.
  rewrite (bind_done _ _ _ _ _ (count_documents_run E _ w1 Hq1)).
  set (w2 := logged _ w1).
  assert (Hq2 : quiet w2) by now apply quiet_logged.
  rewrite (bind_done _ _ _ _ _ (aggregate_total_run E _ w2 Hq2)).
  unfold paged_response, matching.
  change (w_records w1) with (w_records w).
  change (w_records w2) with (w_records w).
  destruct (List.filter (matches E (filter_of E query)) (w_records w)); reflexivity.
Qed.

Lemma int_or_nonzero (x : option string) (fallback : Z) :
  fallback <> 0%Z -> RecordController.int_or x fallback <> 0%Z.
Proof.
  unfold RecordController.int_or. intros Hf.
  destruct (Js.parseInt x) as [n|]; [|assumption].
  destruct (n =? 0)%Z eqn:Hn; [assumption|]. now apply Z.eqb_neq.
Qed.

(** [ceil_div a b] is the ceiling of the quotient, for a positive [b]. *)
Lemma ceil_div_is_ceiling (a b : Z) :
  (0 < b)%Z ->
  ((RecordController.ceil_div a b - 1) * b < a <= RecordController.ceil_div a b * b)%Z.
Proof.
  intros Hb. unfold RecordController.ceil_div.
  pose proof (Z.div_mod (- a) b ltac:(lia)) as Hdm.
  pose proof (Z.mod_pos_bound (- a) b Hb) as Hm.
  nia.
Qed.

(** Without a minPrice that is a number, no clause of the test for the
    mode without pagination holds. *)
Lemma isAmountFilterOnly_needs_minPrice (search magazineName : string) (maxPrice : Js.num) :
  RecordController.isAmountFilterOnly search magazineName Js.NaN maxPrice = false.
Proof.
  unfold RecordController.isAmountFilterOnly. simpl.
  now rewrite !andb_false_r.
Qed.

(** With a search term the test fails, whatever the range. *)
Lemma isAmountFilterOnly_needs_no_search (search magazineName : string)
  (minPrice maxPrice : Js.num) :
  search <> EmptyString ->
  RecordController.isAmountFilterOnly search magazineName minPrice maxPrice = false.
Proof.
  intros Hs. unfold RecordController.isAmountFilterOnly, RecordController.blank.
  destruct (String.eqb_spec search EmptyString) as [->|_]; [contradiction|reflexivity].
Qed.

(** C4. On a cache miss outside the mode without pagination: page is 1
    and limit 200 when the parameter is absent; the first store call is
    the paged find with skip [(page - 1) * limit] and that limit; and when
    the store lets the calls through and the skip is not negative, the
    response holds the matching records after the skipped ones, up to the
    limit, totalRecords is the number of matching records and totalPages
    is the ceiling of totalRecords over limit. *)
Theorem paged_retrieval_arithmetic (E : Collab) (query : RawQuery) (w : World) :
  cached_at (cache_key E query) w = None ->
  amount_only query = false ->
  quiet w ->
  let page := page_of query in
  let limit := limit_of query in
  let skip := ((page - 1) * limit)%Z in
  let found := matching E (filter_of E query) w in
  let result := RecordController.getRecords E query w in
  (param query "page" = None -> page = 1%Z) /\
  (param query "limit" = None -> limit = 200%Z) /\
  (exists rest,
     w_log (snd result) =
     (w_log w ++ RecordFindPaged (filter_of E query) skip limit :: rest)%list) /\
  ((0 <= skip)%Z ->
   exists r,
     fst result = Done (json (BList r)) /\
     records r = take (Z.abs_nat limit) (drop (Z.to_nat skip) found) /\
     totalRecords r = Z.of_nat (length found) /\
     totalPages r = RecordController.ceil_div (totalRecords r) limit /\
     ((0 < limit)%Z ->
      ((totalPages r - 1) * limit < totalRecords r <= totalPages r * limit)%Z)).
Proof.
  intros Hmiss Hmode Hq page limit skip found result.
  assert (Hlimit : limit <> 0%Z) by (apply int_or_nonzero; discriminate).
  split; [|split; [|split]].
  - intros Hp. unfold page, page_of. now rewrite Hp.
  - intros Hl. unfold limit, limit_of. now rewrite Hl.
  - destruct (Z.ltb_spec skip 0) as [Hneg | Hpos].
    + exists []. subst result. unfold RecordController.getRecords.
      erewrite try_catch_threw.
      2:{ rewrite (bind_done _ _ _ _ _ (cache_get_run _ w)).
          fold (filter_of E query). fold (cache_key E query). rewrite Hmiss.
          fold (amount_only query). rewrite Hmode.
          fold (page_of query). fold (limit_of query). fold page limit skip.
          apply bind_threw. unfold find_records_paged.
          rewrite store_call_quiet by assumption.
          apply Z.ltb_lt in Hneg. rewrite Hneg. reflexivity. }
      reflexivity.
    + eexists. subst result.
      rewrite (getRecords_miss_paged E query w Hmiss Hmode Hq Hpos).
      simpl. rewrite <- !app_assoc. reflexivity.
  - intros Hpos. exists (paged_response E query w). subst result.
    rewrite (getRecords_miss_paged E query w Hmiss Hmode Hq Hpos).
    split; [reflexivity|]. split; [|split; [reflexivity|split; [reflexivity|]]].
    + unfold paged_response; simpl. fold limit. apply Z.eqb_neq in Hlimit.
      now rewrite Hlimit.
    + intros Hl. apply ceil_div_is_ceiling. exact Hl.
Qed.

(** A store call either rejects, the data of the world as it was, or is
    let through. *)
Lemma store_call_cases {A} (op : DbOp) (run : M A) (w : World) :
  (exists msg w',
     store_call op run w = (Threw msg, w') /\ w_cache w' = w_cache w)
  \/
  (store_call op run w = run (logged op w) /\
   rejects (hd None (w_faults w)) = false).
Proof.
  unfold store_call, logged. destruct w as [rs us c t n fs l]; simpl.
  destruct fs as [|[msg|] rest]; simpl.
  - right. split; reflexivity.
  - left. eexists _, _. split; reflexivity.
  - right. split; reflexivity.
Qed.

Lemma store_read_cases {A} (op : DbOp) (f : World -> A) (w : World) :
  (exists msg w',
     store_call op (read f) w = (Threw msg, w') /\ w_cache w' = w_cache w)
  \/
  (store_call op (read f) w = (Done (f (logged op w)), logged op w) /\
   rejects (hd None (w_faults w)) = false).
Proof.
  destruct (store_call_cases op (read f) w) as [H | [H1 H2]]; [now left | right].
  split; [exact H1 | exact H2].
Qed.

Lemma rejects_take_succ (n : nat) (fs : list (option string)) :
  existsb rejects (take (S n) fs)
  = (rejects (hd None fs) || existsb rejects (take n (tail fs))).
Proof. destruct fs as [|f rest]; simpl; [now destruct n | reflexivity]. Qed.

Lemma log_grows (l : list DbOp) op rest : (l ++ op :: rest)%list <> l.
Proof.
  intros H. apply (f_equal (@length _)) in H.
  rewrite length_app in H. simpl in H. lia.
Qed.

(** The body of [getRecords] after a miss, in the two modes. *)
Lemma getRecords_after_miss (E : Collab) (query : RawQuery) (w : World) :
  cached_at (cache_key E query) w = None ->
  RecordController.getRecords E query w =
  try_catch
    (if amount_only query then
       bind (find_records E (filter_of E query)) (fun found =>
         let responseData :=
           {| totalRecords := Z.of_nat (length found); page := 1; totalPages := 1;
              totalAmount :=
                fold_left (fun acc record => Js.add acc (RecordController.amount_of record))
                          found (Js.Fin 0);
              records := found |} in
         bind (cache_put (cache_key E query) responseData RecordController.ttl)
              (fun _ => ret (json (BList responseData))))
     else
       bind (find_records_paged E (filter_of E query)
               ((page_of query - 1) * limit_of query) (limit_of query)) (fun found =>
       bind (count_documents E (filter_of E query)) (fun total =>
       bind (aggregate_total E (filter_of E query)) (fun totalAmount =>
         let responseData :=
           {| totalRecords := total; page := page_of query;
              totalPages := RecordController.ceil_div total (limit_of query);
              totalAmount := match totalAmount with t :: _ => t | [] => Js.Fin 0 end;
              records := found |} in
         bind (cache_put (cache_key E query) responseData RecordController.ttl)
              (fun _ => ret (json (BList responseData)))))))
    (fun msg => ret (retrieval_error msg)) w.
Proof.
  intros Hmiss. unfold RecordController.getRecords, try_catch.
  rewrite (bind_done _ _ _ _ _ (cache_get_run _ w)).
  fold (filter_of E query). fold (cache_key E query). rewrite Hmiss.
  fold (amount_only query). fold (page_of query). fold (limit_of query).
  destruct (amount_only query); reflexivity.
Qed.

(** The list request on a miss, by cases on what the store does: either
    every call is let through and the fresh response is stored and
    returned, or a call rejects and the answer is the 500, the cache as it
    was. *)
Lemma getRecords_miss_cases (E : Collab) (query : RawQuery) (w : World) :
  cached_at (cache_key E query) w = None ->
  let result := RecordController.getRecords E query w in
  (fst result = Done (json (BList (fresh_response E query w))) /\
   w_cache (snd result) =
     (cache_key E query,
      {| cached := fresh_response E query w;
         expire := RecordController.ttl + w_now w |})
     :: cache_remove (cache_key E query) (w_cache w) /\
   w_log (snd result) <> w_log w /\
   (amount_only query = false -> (0 <= (page_of query - 1) * limit_of query)%Z) /\
   existsb rejects (take (list_calls query) (w_faults w)) = false)
  \/
  (exists msg, fst result = Done (retrieval_error msg) /\
               w_cache (snd result) = w_cache w).
Proof.
  intros Hmiss result. subst result. rewrite (getRecords_after_miss E query w Hmiss).
  unfold fresh_response, list_calls.
  set (f := filter_of E query).
  destruct (amount_only query) eqn:Hmode.
  - unfold find_records.
    destruct (store_read_cases (RecordFind f)
                (fun w => List.filter (matches E f) (w_records w)) w)
      as [(msg & w' & Hrej & Hc) | (Hpass & Hhd)].
    + right. exists msg.
      rewrite (try_catch_threw _ _ _ _ _ (bind_threw _ _ _ _ _ Hrej)).
      split; [reflexivity | exact Hc].
    + left. erewrite try_catch_done.
      2:{ erewrite bind_done by exact Hpass. reflexivity. }
      split; [reflexivity|]. split; [reflexivity|].
      split; [apply log_grows|]. split; [discriminate|].
      rewrite rejects_take_succ, Hhd. now rewrite take_0.
  - set (skip := ((page_of query - 1) * limit_of query)%Z).
    unfold find_records_paged, count_documents, aggregate_total.
    set (op1 := RecordFindPaged f skip (limit_of query)).
    destruct (Z.ltb_spec skip 0) as [Hneg | Hpos].
    { right.
      destruct (store_call_cases op1 (@throw (list Doc) "Skip value must be non-negative") w)
        as [(msg & w' & Hrej & Hc) | (Hpass1 & _)].
      - exists msg.
        rewrite (try_catch_threw _ _ _ _ _ (bind_threw _ _ _ _ _ Hrej)).
        split; [reflexivity | exact Hc].
      - eexists. erewrite try_catch_threw.
        2:{ apply bind_threw. rewrite Hpass1. reflexivity. }
        split; reflexivity. }
    destruct (store_read_cases op1
                (fun w =>
                   let rest := drop (Z.to_nat skip) (List.filter (matches E f) (w_records w)) in
                   if (limit_of query =? 0)%Z then rest
                   else take (Z.abs_nat (limit_of query)) rest) w)
      as [(msg & w' & Hrej & Hc) | (Hpass1 & Hhd1)].
    { right. exists msg.
      rewrite (try_catch_threw _ _ _ _ _ (bind_threw _ _ _ _ _ Hrej)).
      split; [reflexivity | exact Hc]. }
    set (w1 := logged op1 w) in *.
    destruct (store_read_cases (RecordCount f)
                (fun w => Z.of_nat (length (List.filter (matches E f) (w_records w)))) w1)
      as [(msg & w' & Hrej & Hc) | (Hpass2 & Hhd2)].
    { right. exists msg.
      erewrite try_catch_threw.
      2:{ erewrite bind_done by exact Hpass1.
          apply bind_threw. exact Hrej. }
      split; [reflexivity | exact Hc]. }
    set (w2 := logged (RecordCount f) w1) in *.
    destruct (store_read_cases (RecordSumAmount f)
                (fun w =>
                   match List.filter (matches E f) (w_records w) with
                   | [] => []
                   | ds => [fold_left sum_step ds (Js.Fin 0)]
                   end) w2)
      as [(msg & w' & Hrej & Hc) | (Hpass3 & Hhd3)].
    { right. exists msg.
      erewrite try_catch_threw.
      2:{ erewrite bind_done by exact Hpass1.
          erewrite bind_done by exact Hpass2.
          apply bind_threw. exact Hrej. }
      split; [reflexivity | exact Hc]. }
    left. erewrite try_catch_done.
    2:{ erewrite bind_done by exact Hpass1.
        erewrite bind_done by exact Hpass2.
        erewrite bind_done by exact Hpass3.
        reflexivity. }
    assert (Hresp :
      {| totalRecords := Z.of_nat (length (List.filter (matches E f) (w_records w)));
         page := page_of query;
         totalPages :=
           RecordController.ceil_div
             (Z.of_nat (length (List.filter (matches E f) (w_records w))))
             (limit_of query);
         totalAmount :=
           match
             match List.filter (matches E f) (w_records w) with
             | [] => []
             | ds => [fold_left sum_step ds (Js.Fin 0)]
             end
           with t :: _ => t | [] => Js.Fin 0 end;
         records :=
           let rest := drop (Z.to_nat skip) (List.filter (matches E f) (w_records w)) in
           if (limit_of query =? 0)%Z then rest
           else take (Z.abs_nat (limit_of query)) rest |}
      = paged_response E query w).
    { unfold paged_response, matching. fold f skip.
      destruct (List.filter (matches E f) (w_records w)); reflexivity. }
    split; [simpl; now rewrite <- Hresp|].
    split; [simpl; now rewrite <- Hresp|].
    split; [simpl; rewrite <- !app_assoc; apply log_grows|].
    split; [intros _; exact Hpos|].
    rewrite !rejects_take_succ, Hhd1.
    change (tail (w_faults w)) with (w_faults w1). rewrite Hhd2.
    change (tail (w_faults w1)) with (w_faults w2). rewrite Hhd3.
    now rewrite take_0.
Qed.

(** C10. A list request answered from the cache is the stored list
    response, never an error.  On a miss, as soon as one of the store
    calls the request makes is rejected, the answer is the 500 and the
    cache is as it was; more generally the cache is unchanged whenever the
    answer is the 500, and it changes only along with a computed list
    response. *)
Theorem failed_list_request_leaves_cache (E : Collab) (query : RawQuery) (w : World) :
  let result := RecordController.getRecords E query w in
  let key := cache_key E query in
  (forall data, cached_at key w = Some data ->
     result = (Done (json (BList data)), w)) /\
  (cached_at key w = None ->
   existsb rejects (take (list_calls query) (w_faults w)) = true ->
   exists msg,
     fst result = Done (retrieval_error msg) /\ w_cache (snd result) = w_cache w) /\
  (forall r, fst result = Done r -> status r = 500%Z ->
     w_cache (snd result) = w_cache w) /\
  (w_cache (snd result) <> w_cache w ->
   exists data, fst result = Done (json (BList data))).
Proof.
  intros result key.
  assert (Hhit : forall data, cached_at key w = Some data ->
                   result = (Done (json (BList data)), w))
    by (intros data; apply getRecords_hit).
  split; [exact Hhit|]. split; [|split].
  - intros Hmiss Hrej.
    destruct (getRecords_miss_cases E query w Hmiss) as [(_ & _ & _ & _ & Hok) | Hfail].
    + congruence.
    + exact Hfail.
  - intros r Hr Hstatus.
    destruct (cached_at key w) as [data|] eqn:Hc.
    + now rewrite (Hhit data eq_refl).
    + destruct (getRecords_miss_cases E query w Hc) as [(Hfst & _) | (msg & _ & Hcache)].
      * fold result in Hfst. rewrite Hfst in Hr. injection Hr as <-. discriminate.
      * exact Hcache.
  - intros Hchanged.
    destruct (cached_at key w) as [data|] eqn:Hc.
    + exfalso. apply Hchanged. now rewrite (Hhit data eq_refl).
    + destruct (getRecords_miss_cases E query w Hc) as [(Hfst & _) | (msg & _ & Hcache)].
      * eexists. exact Hfst.
      * contradiction.
Qed.

(** ** Identical requests and the time to live *)

Lemma key_eqb_refl (k : CacheKey) : key_eqb k k = true.
Proof. unfold key_eqb. now apply bool_decide_eq_true. Qed.

Lemma writes_keep_cache (E : Collab) w w' :
  rtc (write_step E) w w' -> w_cache w' = w_cache w.
Proof.
  induction 1 as [|x y z Hstep _ IH]; [reflexivity|].
  rewrite IH. now apply (write_step_cache E).
Qed.

(** C3. Let a list request be computed on a miss at time [t], and let
    any number of creates, updates, cascades, notes updates and deletes
    run afterwards while time passes.  The same query asked again no later
    than [t] plus five minutes gets the very response of the first
    request, and the world is left as it is: no store call, no new cache
    entry.  Asked again after that, with the store letting the calls
    through, it gets the response computed from the records as they are
    now, and store calls are made.  No writing handler changes the
    cache. *)
Theorem repeated_query_served_from_cache
  (E : Collab) (query : RawQuery) (w0 w1 w2 : World) (r : Response) :
  cached_at (cache_key E query) w0 = None ->
  RecordController.getRecords E query w0 = (Done r, w1) ->
  status r = 200%Z ->
  rtc (write_step E) w1 w2 ->
  ((w_now w2 <= w_now w0 + RecordController.ttl)%Z ->
   RecordController.getRecords E query w2 = (Done r, w2)) /\
  ((w_now w0 + RecordController.ttl < w_now w2)%Z -> quiet w2 ->
   let again := RecordController.getRecords E query w2 in
   fst again = Done (json (BList (fresh_response E query w2))) /\
   w_log (snd again) <> w_log w2) /\
  (forall w w', write_step E w w' -> w_cache w' = w_cache w).
Proof.
  intros Hmiss Hrun Hstatus Hwrites.
  destruct (getRecords_miss_cases E query w0 Hmiss)
    as [(Hfst & Hcache & _ & Hskip & _) | (msg & Hfst & _)];
    rewrite Hrun in *; simpl in *.
  2:{ injection Hfst as ->. discriminate. }
  injection Hfst as ->.
  pose proof (writes_keep_cache E w1 w2 Hwrites) as Hsame.
  assert (Hlookup : cache_lookup (cache_key E query) (w_cache w2) =
                    Some {| cached := fresh_response E query w0;
                            expire := RecordController.ttl + w_now w0 |}).
  { rewrite Hsame, Hcache. simpl. now rewrite key_eqb_refl. }
  split; [|split].
  - intros Hin. apply getRecords_hit. unfold cached_at. rewrite Hlookup. simpl.
    destruct (Z.leb_spec (w_now w2) (RecordController.ttl + w_now w0)); [reflexivity|lia].
  - intros Hout Hq.
    assert (Hmiss2 : cached_at (cache_key E query) w2 = None).
    { unfold cached_at. rewrite Hlookup. simpl.
      destruct (Z.leb_spec (w_now w2) (RecordController.ttl + w_now w0)); [lia|reflexivity]. }
    destruct (getRecords_miss_cases E query w2 Hmiss2)
      as [(Hfst & _ & Hlog & _) | (msg & Hfst & _)].
    + split; assumption.
    + exfalso. unfold fresh_response in *.
      destruct (amount_only query) eqn:Hmode.
      * rewrite (getRecords_miss_unpaged E query w2 Hmiss2 Hmode Hq) in Hfst. discriminate.
      * rewrite (getRecords_miss_paged E query w2 Hmiss2 Hmode Hq (Hskip eq_refl)) in Hfst.
        discriminate.
  - intros w w'. apply write_step_cache.
Qed.

(** ** Creation and its validation *)

Lemma validate_keys_first (E : Collab) (schema : list JoiKey) (data : fields) e :
  validate_keys E schema data = Some e ->
  exists pre k post,
    schema = (pre ++ k :: post)%list /\
    je_key e = jk_key k /\
    validate_key E k (get data (jk_key k)) = Some (je_type e) /\
    Forall (fun j => validate_key E j (get data (jk_key j)) = None) pre.
Proof.
  induction schema as [|k rest IH]; simpl; [discriminate|].
  destruct (validate_key E k (get data (jk_key k))) as [t|] eqn:Hk.
  - intros [= <-]. exists [], k, rest. simpl. repeat split; auto.
  - intros H. destruct (IH H) as (pre & k' & post & -> & Hkey & Hv & Hpre).
    exists (k :: pre), k', post. repeat split; auto.
Qed.

Lemma validate_keys_none (E : Collab) (schema : list JoiKey) (data : fields) :
  validate_keys E schema data = None <->
  forall k, In k schema -> validate_key E k (get data (jk_key k)) = None.
Proof.
  induction schema as [|k rest IH]; simpl; [tauto|].
  destruct (validate_key E k (get data (jk_key k))) as [t|] eqn:Hk.
  - split; [discriminate|]. intros H. specialize (H k (or_introl eq_refl)). congruence.
  - rewrite IH. split.
    + intros H j [<- | Hj]; auto.
    + intros H j Hj. apply H. now right.
Qed.

Lemma unknown_keys_nil (schema : list JoiKey) (data : fields) :
  (forall key, data !! key <> None -> exists k, In k schema /\ jk_key k = key) ->
  unknown_keys schema data = [].
Proof.
  intros Hknown. unfold unknown_keys.
  destruct (List.filter _ _) as [|key rest] eqn:Hf; [reflexivity|].
  exfalso.
  assert (Hin : In key (List.filter
            (fun k => negb (existsb (fun j => String.eqb (jk_key j) k) schema))
            (map fst (map_to_list data)))) by (rewrite Hf; now left).
  apply filter_In in Hin as [Hin Hneg].
  apply in_map_iff in Hin as ([key' v] & Hkey & Hin). simpl in Hkey. subst key'.
  apply list_elem_of_In, elem_of_map_to_list in Hin.
  destruct (Hknown key) as (k & Hk & Hname); [congruence|].
  apply negb_true_iff in Hneg.
  assert (Htrue : existsb (fun j => String.eqb (jk_key j) key) schema = true).
  { apply existsb_exists. exists k. split; [assumption|]. now apply String.eqb_eq. }
  congruence.
Qed.

(** A listed failure breaks the rule of some key of the schema. *)
Lemma listed_violation_breaks (E : Collab) (data : fields) :
  listed_violation E data ->
  exists k, In k recordSchema /\ validate_key E k (get data (jk_key k)) <> None.
Proof.
  intros [k Hk Hreq Hnone | s Hs Hbad | s Hs Hbad | v Hv Hbad].
  - exists k. split; [assumption|]. unfold get. rewrite Hnone. simpl.
    now rewrite Hreq.
  - eexists. split; [do 4 right; left; reflexivity|].
    unfold get. simpl. rewrite Hs. simpl.
    destruct s; [discriminate|]. now rewrite Hbad.
  - eexists. split; [do 5 right; left; reflexivity|].
    unfold get. simpl. rewrite Hs. simpl.
    destruct s; [discriminate|]. now rewrite Hbad.
  - eexists. split; [do 3 right; left; reflexivity|].
    unfold get. simpl. rewrite Hv. simpl.
    destruct v; simpl in *; try discriminate.
    apply negb_true_iff in Hbad. now rewrite Hbad.
Qed.

Lemma createRecord_invalid (E : Collab) (data : fields) (w : World) e :
  validate E recordSchema (Some data) = Some e ->
  RecordController.createRecord E (Some data) w
  = (Done {| status := 400; body := BError (message e) |}, w).
Proof. intros H. unfold RecordController.createRecord. now rewrite H. Qed.

(** C6, as the code has it.  A payload with one of the listed failures
    (a required field missing, a malformed Email or Insta link, a
    non-numeric Amount) is answered 400 with the message of the first
    violation in the order of the schema, and the world is untouched.  A
    payload without Email whose four fields before Email pass is answered
    the message of the Email rule.  A payload that passes as a whole
    (every key of the schema passes, the optional ones too, and there is
    no other key) is persisted under a new identifier and returned with
    201, when the store lets the save through. *)
Theorem create_reports_first_violation_or_persists
  (E : Collab) (data : fields) (w : World) :
  let result := RecordController.createRecord E (Some data) w in
  (listed_violation E data ->
   exists e,
     first_violation E data e /\
     result = (Done {| status := 400; body := BError (message e) |}, w)) /\
  (data !! "Email" = None ->
   (forall k, In k (take 4 recordSchema) ->
      validate_key E k (get data (jk_key k)) = None) ->
   result =
     (Done {| status := 400;
              body := BError (message {| je_key := "Email"; je_type := any_required |}) |},
      w)) /\
  (payload_valid E data -> quiet w ->
   let saved := {| doc_id := w_next_id w; doc_fields := data |} in
   fst result = Done {| status := 201; body := BDoc (Some saved) |} /\
   w_records (snd result) = (w_records w ++ [saved])%list).
Proof.
  intros result. split; [|split].
  - intros Hlisted.
    destruct (listed_violation_breaks E data Hlisted) as (k & Hk & Hbad).
    destruct (validate_keys E recordSchema data) as [e|] eqn:Hv.
    + exists e. split; [now apply validate_keys_first|].
      apply createRecord_invalid. unfold validate. now rewrite Hv.
    + exfalso. apply Hbad. now apply (validate_keys_none E recordSchema data).
  - intros Hnone Hbefore. apply createRecord_invalid.
    unfold validate, recordSchema. cbn [validate_keys].
    rewrite (Hbefore _ (or_introl eq_refl)).
    rewrite (Hbefore _ (or_intror (or_introl eq_refl))).
    rewrite (Hbefore _ (or_intror (or_intror (or_introl eq_refl)))).
    rewrite (Hbefore _ (or_intror (or_intror (or_intror (or_introl eq_refl))))).
    cbn [jk_key]. unfold get at 1. rewrite Hnone. reflexivity.
  - intros [Hkeys Hknown] Hq saved. subst result.
    unfold RecordController.createRecord, validate.
    apply (validate_keys_none E recordSchema data) in Hkeys. rewrite Hkeys.
    rewrite (unknown_keys_nil _ _ Hknown).
    erewrite try_catch_done.
    2:{ erewrite bind_done; [reflexivity|].
        unfold insert_record. rewrite store_call_quiet by assumption. reflexivity. }
    split; reflexivity.
Qed.

(** The claim C6 makes of a payload whose required fields are all present
    and well-formed does not hold: a LeadSource that is not a string is
    answered 400. *)
Lemma create_rejects_bad_optional_field :
  ~ (forall (E : Collab) (data : fields) (w : World),
       required_well_formed E data -> quiet w ->
       exists saved,
         fst (RecordController.createRecord E (Some data) w)
         = Done {| status := 201; body := BDoc (Some saved) |}).
Proof.
  intros Hclaim.
  destruct (Hclaim Sample.collab Sample.bad_lead_source Sample.world) as (saved & Hsaved).
  - intros k Hk Hreq. unfold recordSchema in Hk. simpl in Hk.
    destruct Hk as [<- | [<- | [<- | [<- | [<- | [<- | [<- | [<- | []]]]]]]]];
      try discriminate Hreq; split; try (vm_compute; discriminate);
      vm_compute; reflexivity.
  - constructor.
  - vm_compute in Hsaved. discriminate Hsaved.
Qed.

(** ** The mode without pagination and the maxPrice alone *)

(** C1, where the code departs from it.  Every clause of the test for the
    mode without pagination needs a numeric minPrice, so a request with a
    maxPrice alone is paged: with three matching records and limit 1 it
    returns one record, three pages, and the sum comes from the aggregate
    call of the store. *)
Theorem max_price_only_request_is_paged :
  (forall search magazineName maxPrice,
     RecordController.isAmountFilterOnly search magazineName Js.NaN maxPrice = false) /\
  let query := Sample.max_only_query in
  let f := filter_of Sample.collab query in
  let result := RecordController.getRecords Sample.collab query Sample.world in
  amount_only query = false /\
  map doc_id (matching Sample.collab f Sample.world) = [1%N; 3%N; 4%N] /\
  fst result = Done (json (BList (paged_response Sample.collab query Sample.world))) /\
  map doc_id (records (paged_response Sample.collab query Sample.world)) = [1%N] /\
  totalPages (paged_response Sample.collab query Sample.world) = 3%Z /\
  w_log (snd result) = [RecordFindPaged f 0 1; RecordCount f; RecordSumAmount f].
Proof.
  split; [apply isAmountFilterOnly_needs_minPrice|].
  cbv zeta. repeat split; vm_compute; reflexivity.
Qed.

(** X19. With a finite minPrice and no search or magazine, on a miss
    with the store letting the call through, the mode without pagination
    is taken: every matching record, page 1 of 1, the sum folded over
    the records, one store call and no aggregate. *)
Lemma min_price_request_is_unpaged (E : Collab) (query : RawQuery) (w : World) :
  cached_at (cache_key E query) w = None ->
  param query "search" = None -> param query "magazine" = None ->
  Js.isFinite (Js.parseFloat (param query "minPrice")) = true ->
  quiet w ->
  let result := RecordController.getRecords E query w in
  let found := matching E (filter_of E query) w in
  exists r,
    fst result = Done (json (BList r)) /\
    records r = found /\ page r = 1%Z /\ totalPages r = 1%Z /\
    totalAmount r =
      fold_left (fun acc d => Js.add acc (RecordController.amount_of d)) found (Js.Fin 0) /\
    w_log (snd result) = (w_log w ++ [RecordFind (filter_of E query)])%list.
Proof.
  intros Hmiss Hs Hm Hmin Hq result found.
  assert (Hmode : amount_only query = true).
  { unfold amount_only, RecordController.isAmountFilterOnly. rewrite Hs, Hm. simpl.
    rewrite Hmin. simpl.
    destruct (Js.parseFloat (param query "minPrice")); try discriminate.
    destruct (Js.parseFloat (param query "maxPrice")); reflexivity. }
  exists (unpaged_response E query w). subst result.
  rewrite (getRecords_miss_unpaged E query w Hmiss Hmode Hq).
  repeat split; reflexivity.
Qed.

(** A search term together with a range is paged. *)
Lemma search_with_range_is_paged (query : RawQuery) s :
  param query "search" = Some s -> s <> EmptyString -> amount_only query = false.
Proof.
  intros Hs Hne. unfold amount_only. rewrite Hs. simpl.
  now apply isAmountFilterOnly_needs_no_search.
Qed.

(** ** The update addressed by [?id=] and a record that is not there *)

(** C7, where the code departs from it.  The update addressed by [?id=]
    does not look at what the store found: for an identifier no record
    has, it answers 200 with a null body; 404 is not among its answers. *)
Theorem update_by_query_id_never_answers_404 :
  find_by_id 99%N (w_records Sample.world) = None /\
  fst (RecordController.updateRecord 99%N (Some Sample.new_magazine) Sample.world)
    = Done (json (BDoc None)) /\
  (forall id body w,
     match fst (RecordController.updateRecord id body w) with
     | Done r => status r = 200%Z \/ status r = 400%Z \/ status r = 500%Z
     | Threw _ => False
     end).
Proof.
  split; [reflexivity|]. split; [vm_compute; reflexivity|].
  intros id body w. unfold RecordController.updateRecord, try_catch, bind.
  destruct body as [data|]; simpl; [|auto].
  destruct (size _ =? 0)%nat; simpl; [auto|].
  unfold record_find_by_id_and_update, store_call.
  destruct (w_faults w) as [|[msg|] rest]; simpl; auto.
Qed.

(** X20. The mounted update does look: for an identifier no record has,
    the store letting the call through, it answers 404 and the records are
    as they were. *)
Lemma cascade_answers_404_when_absent (E : Collab) (id : Id) (data : fields) (w : World) :
  quiet w ->
  find_by_id id (w_records w) = None ->
  fst (MountedController.updateRecord E id (Some data) w)
    = Done {| status := 404; body := BMessage "Record not found" |} /\
  w_records (snd (MountedController.updateRecord E id (Some data) w)) = w_records w.
Proof.
  intros Hq Hnone.
  assert (Hrun : MountedController.updateRecord E id (Some data) w =
    (Done {| status := 404; body := BMessage "Record not found" |},
     set_records (update_by_id id (apply_update data) (w_records w))
                 (logged (RecordFindByIdAndUpdate id data false) w))).
  { unfold MountedController.updateRecord. apply try_catch_done.
    erewrite bind_done.
    2:{ unfold record_find_by_id_and_update. rewrite store_call_quiet by assumption.
        reflexivity. }
    cbv beta. change (w_records (logged _ w)) with (w_records w).
    rewrite update_by_id_absent by assumption. rewrite Hnone. reflexivity. }
  rewrite Hrun. split; [reflexivity|]. simpl. now apply update_by_id_absent.
Qed.

(** ** The statements at work on the sample world *)

Lemma sample_quiet : quiet Sample.world.
Proof. constructor. Defined.

Lemma sample_record_ids : NoDup (map doc_id (w_records Sample.world)).
Proof. apply (bool_decide_unpack _). vm_compute. exact I. Defined.

Lemma sample_user_ids : NoDup (map doc_id (w_users Sample.world)).
Proof. apply (bool_decide_unpack _). vm_compute. exact I. Defined.

Lemma known_key (key : string) :
  existsb (fun j => String.eqb (jk_key j) key) recordSchema = true ->
  exists k, In k recordSchema /\ jk_key k = key.
Proof.
  intros H. apply existsb_exists in H as (k & Hk & Heq).
  exists k. split; [assumption|]. now apply String.eqb_eq.
Defined.

(** The cascade from record 2 reaches record 1, which shares its Email. *)
Lemma cascade_update_witness :
  find_by_id 1%N
    (w_records (snd (MountedController.updateRecord Sample.collab 2%N
                       (Some Sample.new_magazine) Sample.world)))
  = Some (with_fields (apply_update Sample.new_magazine) Sample.r1).
Proof.
  assert (Htarget : find_by_id 2%N (w_records Sample.world) = Some Sample.r2)
    by (vm_compute; reflexivity).
  destruct (cascade_update_reaches_siblings_and_user Sample.collab 2%N
              Sample.new_magazine Sample.world Sample.r2
              sample_quiet sample_record_ids sample_user_ids Htarget)
    as (_ & _ & Hsib & _).
  apply (Hsib Sample.r1).
  - simpl. tauto.
  - vm_compute. reflexivity.
Defined.

(** The blank Stage_Name of the payload leaves the User's Stage_Name. *)
Lemma cascade_empty_string_witness :
  exists u',
    find_by_id 10%N
      (w_users (snd (MountedController.updateRecord Sample.collab 2%N
                       (Some Sample.blank_stage) Sample.world)))
    = Some u' /\
    get (doc_fields u') "Stage_Name" = Js.VStr "Annie".
Proof.
  assert (Htarget : find_by_id 2%N (w_records Sample.world) = Some Sample.r2)
    by (vm_compute; reflexivity).
  destruct (cascade_empty_string_skips_user Sample.collab 2%N
              Sample.blank_stage Sample.world Sample.r2
              sample_quiet sample_record_ids sample_user_ids Htarget)
    as (_ & Huser & _).
  destruct (Huser Sample.u1) as (u' & Hfound & Hkeeps).
  - vm_compute. reflexivity.
  - exists u'. split; [exact Hfound|].
    rewrite (Hkeeps "Stage_Name" "Stage_Name").
    + vm_compute. reflexivity.
    + simpl. tauto.
    + vm_compute. reflexivity.
Defined.

(** The same query, a second and a delete later, is answered from the
    cache. *)
Lemma repeated_query_witness :
  RecordController.getRecords Sample.collab Sample.min_only_query Sample.later_world
  = (Done (json (BList (fresh_response Sample.collab Sample.min_only_query Sample.world))),
     Sample.later_world).
Proof.
  refine (proj1 (repeated_query_served_from_cache Sample.collab Sample.min_only_query
                   Sample.world Sample.listed_world Sample.later_world _ _ _ _ _) _).
  - vm_compute. reflexivity.
  - vm_compute. reflexivity.
  - reflexivity.
  - eapply rtc_l; [apply (step_tick Sample.collab 1000); lia|].
    eapply rtc_l; [apply (step_delete Sample.collab 1%N)|].
    apply rtc_refl.
  - apply Z.leb_le. vm_compute. reflexivity.
Defined.

(** Page 2 of the search, two records a page. *)
Lemma paged_retrieval_witness :
  exists r,
    fst (RecordController.getRecords Sample.collab Sample.paged_query Sample.world)
      = Done (json (BList r)) /\
    map doc_id (records r) = [3%N] /\
    totalRecords r = 3%Z /\
    totalPages r = 2%Z.
Proof.
  destruct (paged_retrieval_arithmetic Sample.collab Sample.paged_query Sample.world)
    as (_ & _ & _ & Hpaged).
  - vm_compute. reflexivity.
  - vm_compute. reflexivity.
  - exact sample_quiet.
  - destruct Hpaged as (r & Hfst & Hrecords & Htotal & Hpages & _).
    + apply Z.leb_le. vm_compute. reflexivity.
    + exists r. split; [exact Hfst|].
      split; [rewrite Hrecords; vm_compute; reflexivity|].
      split; [rewrite Htotal; vm_compute; reflexivity|].
      rewrite Hpages, Htotal. vm_compute. reflexivity.
Defined.

(** The blank Notes is dropped, the rest is written to record 2. *)
Lemma full_update_witness :
  fst (RecordController.updateRecord 2%N (Some Sample.partial_payload) Sample.world)
  = Done (json (BDoc (Some (with_fields (fun old => Sample.new_magazine ∪ old) Sample.r2)))).
Proof.
  destruct (full_update_drops_blank_fields 2%N Sample.partial_payload Sample.world)
    as (_ & _ & _ & Hwrite).
  destruct Hwrite with (target := Sample.r2) as (Hfst & _).
  - intros Hempty. apply (f_equal (fun m : fields => m !! "Magazine")) in Hempty.
    vm_compute in Hempty. discriminate Hempty.
  - exact sample_quiet.
  - vm_compute. reflexivity.
  - rewrite Hfst. vm_compute. reflexivity.
Defined.

(** A payload without Email is answered the Email rule; the valid payload
    is saved under identifier 5. *)
Lemma create_witness :
  RecordController.createRecord Sample.collab (Some Sample.no_email) Sample.world
  = (Done {| status := 400;
             body := BError (message {| je_key := "Email"; je_type := any_required |}) |},
     Sample.world) /\
  fst (RecordController.createRecord Sample.collab (Some Sample.valid_payload) Sample.world)
  = Done {| status := 201;
            body := BDoc (Some {| doc_id := 5%N; doc_fields := Sample.valid_payload |}) |}.
Proof.
  split.
  - destruct (create_reports_first_violation_or_persists Sample.collab Sample.no_email
                Sample.world) as (_ & Hemail & _).
    apply Hemail.
    + vm_compute. reflexivity.
    + intros k Hk. simpl in Hk.
      destruct Hk as [<- | [<- | [<- | [<- | []]]]]; vm_compute; reflexivity.
  - destruct (create_reports_first_violation_or_persists Sample.collab Sample.valid_payload
                Sample.world) as (_ & _ & Hvalid).
    destruct Hvalid as (Hfst & _).
    + split.
      * intros k Hk. simpl in Hk.
        destruct Hk as [<- | [<- | [<- | [<- | [<- | [<- | [<- | [<- | []]]]]]]]];
          vm_compute; reflexivity.
      * intros key Hkey. apply known_key. unfold Sample.valid_payload in Hkey.
        repeat (rewrite lookup_insert in Hkey;
                destruct (decide (_ = key)) as [<- | _]; [vm_compute; reflexivity|]).
        rewrite lookup_empty in Hkey. congruence.
    + exact sample_quiet.
    + exact Hfst.
Defined.

(** A note on record 2. *)
Lemma notes_update_witness :
  exists record,
    fst (RecordController.updateRecordNotes 2%N (Some Sample.note_body) Sample.world)
      = Done {| status := 200; body := BNote "Note updated successfully" record |} /\
    get (doc_fields record) "Notes" = Js.VStr "call back" /\
    doc_fields record !! "Magazine" = Some (Js.VStr "Elle").
Proof.
  destruct (notes_update_touches_two_fields 2%N Sample.note_body Sample.world sample_quiet)
    as (Hfound & _).
  destruct (Hfound Sample.r2) as (record & Hfst & _ & _ & Hnotes & _ & Hframe & _).
  - vm_compute. reflexivity.
  - exists record. split; [exact Hfst|]. split.
    + rewrite Hnotes. vm_compute. reflexivity.
    + rewrite Hframe by discriminate. vm_compute. reflexivity.
Defined.

(** The store rejects the one call of the request: 500, cache as before. *)
Lemma failed_list_request_witness :
  exists msg,
    fst (RecordController.getRecords Sample.collab Sample.min_only_query Sample.failing_world)
      = Done (retrieval_error msg) /\
    w_cache (snd (RecordController.getRecords Sample.collab Sample.min_only_query
                    Sample.failing_world))
      = w_cache Sample.failing_world.
Proof.
  destruct (failed_list_request_leaves_cache Sample.collab Sample.min_only_query
              Sample.failing_world) as (_ & Hrejected & _).
  apply Hrejected.
  - vm_compute. reflexivity.
  - vm_compute. reflexivity.
Defined.

(** The claim C2 makes of the User, that a path is set from the payload
    whenever the payload has the key, does not hold: a Stage_Name that is
    the empty string leaves the User's Stage_Name. *)
Lemma cascade_blank_field_not_written_to_user :
  ~ (forall (E : Collab) (id : Id) (data : fields) (w : World) (target u : Doc)
            (k k' : string) (v : Js.value),
       quiet w ->
       NoDup (map doc_id (w_records w)) -> NoDup (map doc_id (w_users w)) ->
       find_by_id id (w_records w) = Some target ->
       List.find
         (matches E [Field "Email_Address"
                       (CEq (get (apply_update data (doc_fields target)) "Email"))])
         (w_users w) = Some u ->
       In (k, k') user_paths -> data !! k' = Some v ->
       exists u',
         find_by_id (doc_id u)
           (w_users (snd (MountedController.updateRecord E id (Some data) w))) = Some u' /\
         get (doc_fields u') k = v).
Proof.
  intros Hclaim.
  destruct (Hclaim Sample.collab 2%N Sample.blank_stage Sample.world Sample.r2 Sample.u1
              "Stage_Name" "Stage_Name" (Js.VStr EmptyString)
              sample_quiet sample_record_ids sample_user_ids)
    as (u' & Hfound & Hset).
  - vm_compute. reflexivity.
  - vm_compute. reflexivity.
  - simpl. tauto.
  - vm_compute. reflexivity.
  - vm_compute in Hfound. injection Hfound as <-.
    vm_compute in Hset. discriminate Hset.
Qed.

(** ** Properties a command keeps *)

Lemma keeps_inv_ret {A} (I : World -> Prop) (a : A) : keeps_inv I (ret a).
Proof. intros w Hw. exact Hw. Qed.

Lemma keeps_inv_throw {A} (I : World -> Prop) msg : keeps_inv I (@throw A msg).
Proof. intros w Hw. exact Hw. Qed.

Lemma keeps_inv_read {A} (I : World -> Prop) (f : World -> A) : keeps_inv I (read f).
Proof. intros w Hw. exact Hw. Qed.

Lemma keeps_inv_bind {A B} (I : World -> Prop) (m : M A) (k : A -> M B) :
  keeps_inv I m -> (forall a, keeps_inv I (k a)) -> keeps_inv I (bind m k).
Proof.
  intros Hm Hk w Hw. unfold bind. specialize (Hm w Hw).
  destruct (m w) as [[a | msg] w1]; simpl in *; [now apply Hk | assumption].
Qed.

Lemma keeps_inv_try_catch {A} (I : World -> Prop) (body : M A) (handler : string -> M A) :
  keeps_inv I body -> (forall msg, keeps_inv I (handler msg)) ->
  keeps_inv I (try_catch body handler).
Proof.
  intros Hb Hh w Hw. unfold try_catch. specialize (Hb w Hw).
  destruct (body w) as [[a | msg] w1]; simpl in *; [assumption | now apply Hh].
Qed.

Lemma keeps_inv_store_call {A} (I : World -> Prop) op (run : M A) :
  log_blind I -> keeps_inv I run -> keeps_inv I (store_call op run).
Proof.
  intros Hblind Hrun w Hw. unfold store_call.
  destruct (w_faults w) as [|[msg|] rest].
  - apply Hrun. exact (proj2 (Hblind w _ [] Hw)).
  - simpl. exact (proj1 (Hblind w _ _ Hw)).
  - apply Hrun. exact (proj1 (Hblind w _ _ Hw)).
Qed.

Lemma keeps_inv_all_of {A B} (I : World -> Prop) (f : A -> M B) (xs : list A) :
  (forall x, keeps_inv I (f x)) -> keeps_inv I (all_of f xs).
Proof.
  intros Hf. induction xs as [|x rest IH]; intros w Hw; simpl; [assumption|].
  pose proof (Hf x w Hw) as Hx.
  destruct (f x w) as [[b | msg] w1]; simpl in *.
  - pose proof (IH w1 Hx) as Hrest.
    destruct (all_of f rest w1) as [[bs | msg] w2]; simpl in *; assumption.
  - now apply IH.
Qed.

Ltac frame_inv :=
  repeat first
    [ apply keeps_inv_bind; [|intros ?]
    | apply keeps_inv_try_catch; [|intros ?]
    | apply keeps_inv_all_of; intros ?
    | apply keeps_inv_ret
    | apply keeps_inv_throw
    | apply keeps_inv_read
    | match goal with |- keeps_inv _ (match ?x with _ => _ end) => destruct x end
    | match goal with |- keeps_inv _ (if ?x then _ else _) => destruct x end ].

(** ** Identifiers stay unique and below the supply *)

Lemma ids_ok_ids (w : World) :
  ids_ok w <->
  NoDup (map doc_id (w_records w)) /\
  Forall (fun i => (i < w_next_id w)%N) (map doc_id (w_records w)).
Proof.
  unfold ids_ok. split; intros [Hnd Hlt]; (split; [assumption|]).
  - apply List.Forall_forall. intros i Hi. apply in_map_iff in Hi as (d & <- & Hd).
    now apply Hlt.
  - intros d Hd. rewrite List.Forall_forall in Hlt. apply Hlt. now apply in_map.
Qed.

Lemma ids_ok_log_blind : log_blind ids_ok.
Proof. intros w l fs Hw. split; exact Hw. Qed.

Lemma delete_by_id_ids_in id ds i :
  In i (map doc_id (delete_by_id id ds)) -> In i (map doc_id ds).
Proof.
  induction ds as [|d rest IH]; simpl; [tauto|].
  destruct (N.eqb (doc_id d) id); simpl; [tauto|].
  intros [H | H]; [now left | right; now apply IH].
Qed.

Lemma delete_by_id_ids_NoDup id ds :
  NoDup (map doc_id ds) -> NoDup (map doc_id (delete_by_id id ds)).
Proof.
  induction ds as [|d rest IH]; simpl; [trivial|].
  intros Hnd. apply NoDup_cons in Hnd as [Hd Hnd].
  destruct (N.eqb (doc_id d) id); simpl; [assumption|].
  apply NoDup_cons. split; [|now apply IH].
  intros Hin. apply Hd. apply list_elem_of_In. apply list_elem_of_In in Hin.
  now apply (delete_by_id_ids_in id).
Qed.

Lemma ids_ok_update (w : World) id f :
  ids_ok w -> ids_ok (set_records (update_by_id id f (w_records w)) w).
Proof.
  rewrite !ids_ok_ids. simpl. now rewrite update_by_id_ids.
Qed.

Lemma ids_ok_delete (w : World) id :
  ids_ok w -> ids_ok (set_records (delete_by_id id (w_records w)) w).
Proof.
  rewrite !ids_ok_ids. simpl. intros [Hnd Hlt]. split.
  - now apply delete_by_id_ids_NoDup.
  - rewrite List.Forall_forall in *. intros i Hi. apply Hlt.
    now apply (delete_by_id_ids_in id).
Qed.

Lemma ids_ok_insert (w : World) data :
  ids_ok w ->
  ids_ok (set_next_id (N.succ (w_next_id w))
            (set_records (w_records w ++ [ {| doc_id := w_next_id w;
                                              doc_fields := data |} ])%list w)).
Proof.
  rewrite !ids_ok_ids. simpl. intros [Hnd Hlt].
  rewrite map_app. simpl. split.
  - apply NoDup_app. split; [assumption|]. split; [|apply NoDup_singleton].
    intros i Hi Hnew. apply list_elem_of_In in Hi.
    apply list_elem_of_singleton in Hnew. subst i.
    rewrite List.Forall_forall in Hlt. specialize (Hlt _ Hi). lia.
  - apply List.Forall_app. split.
    + eapply List.Forall_impl; [|exact Hlt]. intros i Hi. simpl in Hi. lia.
    + constructor; [lia | constructor].
Qed.

Lemma keeps_ids_update id update rv :
  keeps_inv ids_ok (record_find_by_id_and_update id update rv).
Proof.
  unfold record_find_by_id_and_update.
  apply keeps_inv_store_call; [exact ids_ok_log_blind|].
  intros w Hw. simpl. now apply ids_ok_update.
Qed.

Lemma keeps_ids_user_update id update :
  keeps_inv ids_ok (user_find_by_id_and_update id update).
Proof.
  unfold user_find_by_id_and_update.
  apply keeps_inv_store_call; [exact ids_ok_log_blind|].
  intros w Hw. exact Hw.
Qed.

Lemma keeps_ids_read (E : Collab) {A} op (f : World -> A) :
  keeps_inv ids_ok (store_call op (read f)).
Proof.
  apply keeps_inv_store_call; [exact ids_ok_log_blind | apply keeps_inv_read].
Qed.

(** X1. Whatever the store lets through or rejects, every writing
    handler, the passing of time and a change of the oracle leave the
    identifiers of the records unique and below the identifier the next
    insert gets; so the identifier a create assigns is never one in
    use. *)
Theorem write_step_keeps_ids (E : Collab) (w w' : World) :
  write_step E w w' -> ids_ok w -> ids_ok w'.
Proof.
  intros Hstep.
  destruct Hstep as [b w | id b w | id b w | id b w | id w | dt w Hdt | fs w].
  - revert w. change (keeps_inv ids_ok (RecordController.createRecord E b)).
    unfold RecordController.createRecord. frame_inv.
    unfold insert_record. apply keeps_inv_store_call; [exact ids_ok_log_blind|].
    intros w Hw. simpl. now apply ids_ok_insert.
  - revert w. change (keeps_inv ids_ok (RecordController.updateRecord id b)).
    unfold RecordController.updateRecord. frame_inv. apply keeps_ids_update.
  - revert w. change (keeps_inv ids_ok (MountedController.updateRecord E id b)).
    unfold MountedController.updateRecord. frame_inv;
      try apply keeps_ids_update; try apply keeps_ids_user_update;
      try apply (keeps_ids_read E).
  - revert w. change (keeps_inv ids_ok (RecordController.updateRecordNotes id b)).
    unfold RecordController.updateRecordNotes. frame_inv;
      try apply (keeps_ids_read E).
    unfold save_record. apply keeps_inv_store_call; [exact ids_ok_log_blind|].
    intros w Hw. simpl. now apply ids_ok_update.
  - revert w. change (keeps_inv ids_ok (RecordController.deleteRecord id)).
    unfold RecordController.deleteRecord. frame_inv.
    unfold record_find_by_id_and_delete.
    apply keeps_inv_store_call; [exact ids_ok_log_blind|].
    intros w Hw. simpl. now apply ids_ok_delete.
  - intros Hw. exact Hw.
  - intros Hw. exact Hw.
Qed.

(** ** Delete and lookup *)

Lemma find_by_id_delete_same id ds :
  NoDup (map doc_id ds) -> find_by_id id (delete_by_id id ds) = None.
Proof.
  unfold find_by_id. induction ds as [|d rest IH]; simpl; [reflexivity|].
  intros Hnd. apply NoDup_cons in Hnd as [Hd Hnd].
  destruct (N.eqb (doc_id d) id) eqn:Heq; simpl.
  - apply N.eqb_eq in Heq. subst id.
    destruct (List.find _ rest) as [x|] eqn:Hx; [|reflexivity].
    exfalso. apply find_some in Hx as [Hin Hid]. apply N.eqb_eq in Hid.
    apply Hd. rewrite <- Hid. apply list_elem_of_In. now apply in_map.
  - rewrite Heq. now apply IH.
Qed.

Lemma find_by_id_delete_other id id' ds :
  id' <> id -> find_by_id id' (delete_by_id id ds) = find_by_id id' ds.
Proof.
  unfold find_by_id. intros Hne. induction ds as [|d rest IH]; simpl; [reflexivity|].
  destruct (N.eqb (doc_id d) id) eqn:Heq; simpl.
  - apply N.eqb_eq in Heq.
    destruct (N.eqb (doc_id d) id') eqn:Heq'; [|reflexivity].
    apply N.eqb_eq in Heq'. congruence.
  - now rewrite IH.
Qed.

Lemma delete_by_id_absent id ds :
  find_by_id id ds = None -> delete_by_id id ds = ds.
Proof.
  unfold find_by_id. induction ds as [|d rest IH]; simpl; [reflexivity|].
  destruct (N.eqb (doc_id d) id); [discriminate|].
  intros H. now rewrite IH.
Qed.

Lemma deleteRecord_run (id : Id) (w : World) :
  quiet w ->
  RecordController.deleteRecord id w =
  (Done match find_by_id id (w_records w) with
        | None => {| status := 404; body := BError "Record not found" |}
        | Some _ => json (BMessage "Record deleted successfully")
        end,
   set_records (delete_by_id id (w_records w)) (logged (RecordFindByIdAndDelete id) w)).
Proof.
  intros Hq. unfold RecordController.deleteRecord. apply try_catch_done.
  erewrite bind_done.
  2:{ unfold record_find_by_id_and_delete. rewrite store_call_quiet by assumption.
      reflexivity. }
  change (w_records (logged (RecordFindByIdAndDelete id) w)) with (w_records w).
  destruct (find_by_id id (w_records w)); reflexivity.
Qed.

(** X2. The store letting the call through and identifiers being unique:
    deleting an existing record answers 200, the record can no longer be
    found under its identifier and every other record is where it was;
    deleting under an identifier no record has answers 404 and leaves the
    records as they were.  Users and cache are untouched either way. *)
Theorem delete_removes_one_record (id : Id) (w : World) :
  quiet w ->
  NoDup (map doc_id (w_records w)) ->
  let result := RecordController.deleteRecord id w in
  (forall d, find_by_id id (w_records w) = Some d ->
     fst result = Done (json (BMessage "Record deleted successfully")) /\
     find_by_id id (w_records (snd result)) = None /\
     length (w_records (snd result)) = pred (length (w_records w)) /\
     (forall id', id' <> id ->
        find_by_id id' (w_records (snd result)) = find_by_id id' (w_records w))) /\
  (find_by_id id (w_records w) = None ->
     fst result = Done {| status := 404; body := BError "Record not found" |} /\
     w_records (snd result) = w_records w) /\
  w_users (snd result) = w_users w /\
  w_cache (snd result) = w_cache w.
Proof.
  intros Hq Hnd result. subst result. rewrite (deleteRecord_run id w Hq). simpl.
  split; [|split; [|split; reflexivity]].
  - intros d Hd. rewrite Hd. split; [reflexivity|].
    split; [now apply find_by_id_delete_same|]. split.
    + clear Hnd Hq. revert Hd. unfold find_by_id.
      induction (w_records w) as [|x rest IH]; simpl; [discriminate|].
      destruct (N.eqb (doc_id x) id); simpl; [reflexivity|].
      intros H. rewrite (IH H). destruct rest; [discriminate H | reflexivity].
    + intros id' Hid'. now apply find_by_id_delete_other.
  - intros Hnone. rewrite Hnone. split; [reflexivity|]. now apply delete_by_id_absent.
Qed.

Lemma query_eq_refl (v : Js.value) : query_eq v v = true.
Proof.
  destruct v; simpl; try reflexivity.
  - apply Bool.eqb_reflx.
  - apply Qeq_bool_iff. reflexivity.
  - apply String.eqb_refl.
Qed.

Lemma getRecordById_run (E : Collab) (id : Id) (w : World) :
  quiet w ->
  exists w',
    RecordController.getRecordById E id w =
    (Done match find_by_id id (w_records w) with
          | None => {| l_status := 404; l_body := LError "Record not found" |}
          | Some record =>
              let email := get (doc_fields record) "Email" in
              {| l_status := 200;
                 l_body :=
                   LFound record
                     (List.filter (matches E [Field "Email" (CEq email)]) (w_records w))
                     (List.find (matches E [Field "Email_Address" (CEq email)])
                                (w_users w)) |}
          end, w') /\
    store_of w' = store_of w /\ w_cache w' = w_cache w /\ quiet w'.
Proof.
  intros Hq. unfold RecordController.getRecordById.
  set (w1 := logged (RecordFindById id) w).
  assert (Hq1 : quiet w1) by now apply quiet_logged.
  assert (H1 : record_find_by_id id w = (Done (find_by_id id (w_records w)), w1)).
  { unfold record_find_by_id. now rewrite store_call_quiet by assumption. }
  destruct (find_by_id id (w_records w)) as [record|].
  - set (email := get (doc_fields record) "Email").
    set (w2 := logged (RecordFind [Field "Email" (CEq email)]) w1).
    assert (Hq2 : quiet w2) by now apply quiet_logged.
    exists (logged (UserFindOne [Field "Email_Address" (CEq email)]) w2).
    split; [|split; [reflexivity|split; [reflexivity|now apply quiet_logged]]].
    apply try_catch_done. rewrite (bind_done _ _ _ _ _ H1). cbv beta iota zeta.
    fold email.
    rewrite (bind_done _ _ _ _ _ (find_records_run E _ w1 Hq1)).
    erewrite bind_done.
    2:{ unfold user_find_one. rewrite store_call_quiet by assumption. reflexivity. }
    reflexivity.
  - exists w1. split; [|split; [reflexivity|split; [reflexivity|assumption]]].
    apply try_catch_done. now rewrite (bind_done _ _ _ _ _ H1).
Qed.

(** X3. The store letting the calls through: a lookup under an
    identifier no record has answers 404; a lookup of an existing record
    answers 200 with the record, with exactly the records whose Email is
    the record's Email, the record itself among them, and with the first
    User whose Email_Address is that Email, or null.  Either way the
    lookup leaves the collections and the cache as they were. *)
Theorem lookup_returns_record_siblings_and_user (E : Collab) (id : Id) (w : World) :
  quiet w ->
  let result := RecordController.getRecordById E id w in
  (find_by_id id (w_records w) = None ->
     fst result = Done {| l_status := 404; l_body := LError "Record not found" |}) /\
  (forall record, find_by_id id (w_records w) = Some record ->
     exists same user,
       fst result = Done {| l_status := 200; l_body := LFound record same user |} /\
       (forall d, In d same <->
          In d (w_records w) /\
          query_eq (get (doc_fields d) "Email") (get (doc_fields record) "Email") = true) /\
       In record same /\
       user = List.find
                (matches E [Field "Email_Address"
                              (CEq (get (doc_fields record) "Email"))])
                (w_users w)) /\
  store_of (snd result) = store_of w /\
  w_cache (snd result) = w_cache w.
Proof.
  intros Hq result. subst result.
  destruct (getRecordById_run E id w Hq) as (w' & Hrun & Hstore & Hcache & _).
  rewrite Hrun. simpl. split; [|split; [|split; assumption]].
  - intros Hnone. now rewrite Hnone.
  - intros record Hrecord. rewrite Hrecord. eexists _, _. split; [reflexivity|].
    assert (Hmem : forall d,
      In d (List.filter
              (matches E [Field "Email" (CEq (get (doc_fields record) "Email"))])
              (w_records w)) <->
      In d (w_records w) /\
      query_eq (get (doc_fields d) "Email") (get (doc_fields record) "Email") = true).
    { intros d. rewrite filter_In, matches_equality. reflexivity. }
    split; [exact Hmem|]. split; [|reflexivity].
    apply Hmem. split; [now apply find_by_id_Some in Hrecord | apply query_eq_refl].
Qed.

Lemma createRecord_valid_run (E : Collab) (data : fields) (w : World) :
  payload_valid E data -> quiet w ->
  let saved := {| doc_id := w_next_id w; doc_fields := data |} in
  RecordController.createRecord E (Some data) w =
  (Done {| status := 201; body := BDoc (Some saved) |},
   set_next_id (N.succ (w_next_id w))
     (set_records (w_records w ++ [saved])%list (logged (RecordInsert data) w))).
Proof.
  intros [Hkeys Hknown] Hq saved.
  unfold RecordController.createRecord, validate.
  apply (validate_keys_none E recordSchema data) in Hkeys. rewrite Hkeys.
  rewrite (unknown_keys_nil _ _ Hknown).
  apply try_catch_done. erewrite bind_done; [reflexivity|].
  unfold insert_record. now rewrite store_call_quiet by assumption.
Qed.

Lemma find_by_id_new id x ds :
  (forall d, In d ds -> doc_id d <> id) -> doc_id x = id ->
  find_by_id id (ds ++ [x]) = Some x.
Proof.
  unfold find_by_id. intros Hfresh Hx. induction ds as [|d rest IH]; simpl.
  - now rewrite Hx, N.eqb_refl.
  - destruct (N.eqb (doc_id d) id) eqn:Heq.
    + apply N.eqb_eq in Heq. exfalso. apply (Hfresh d); [now left | assumption].
    + apply IH. intros d' Hd'. apply Hfresh. now right.
Qed.

Lemma getRecordById_found (E : Collab) (id : Id) (w : World) record :
  quiet w -> find_by_id id (w_records w) = Some record ->
  exists same user,
    fst (RecordController.getRecordById E id w)
      = Done {| l_status := 200; l_body := LFound record same user |} /\
    In record same.
Proof.
  intros Hq Hrecord.
  destruct (getRecordById_run E id w Hq) as (w' & Hrun & _).
  rewrite Hrun, Hrecord. eexists _, _. split; [reflexivity|].
  apply filter_In. split; [now apply find_by_id_Some in Hrecord|].
  rewrite matches_equality. apply query_eq_refl.
Qed.

Lemma getRecordById_missing (E : Collab) (id : Id) (w : World) :
  quiet w -> find_by_id id (w_records w) = None ->
  fst (RecordController.getRecordById E id w)
    = Done {| l_status := 404; l_body := LError "Record not found" |}.
Proof.
  intros Hq Hnone.
  destruct (getRecordById_run E id w Hq) as (w' & Hrun & _).
  now rewrite Hrun, Hnone.
Qed.

(** X4. A record that was created can be looked up under the identifier
    it was given: after a create of a payload that passes validation, the
    store letting the calls through and the identifiers in order, the
    lookup under the new identifier answers 200 with the saved record,
    fields as sent. *)
Theorem created_record_is_retrievable (E : Collab) (data : fields) (w : World) :
  payload_valid E data -> quiet w -> ids_ok w ->
  let created := RecordController.createRecord E (Some data) w in
  let saved := {| doc_id := w_next_id w; doc_fields := data |} in
  fst created = Done {| status := 201; body := BDoc (Some saved) |} /\
  exists same user,
    fst (RecordController.getRecordById E (w_next_id w) (snd created))
      = Done {| l_status := 200; l_body := LFound saved same user |} /\
    In saved same.
Proof.
  intros Hvalid Hq [Hnd Hlt] created saved. subst created.
  rewrite (createRecord_valid_run E data w Hvalid Hq). simpl. split; [reflexivity|].
  apply getRecordById_found.
  - apply (quiet_logged (RecordInsert data)) in Hq. exact Hq.
  - simpl. apply find_by_id_new; [|reflexivity].
    intros d Hd Heq. specialize (Hlt d Hd). lia.
Qed.

(** X5. A record that was deleted is gone: after the delete of an
    existing record, the store letting the calls through and identifiers
    being unique, a lookup under its identifier answers 404, and so does
    a second delete. *)
Theorem deleted_record_is_gone (E : Collab) (id : Id) (w : World) (d : Doc) :
  quiet w ->
  NoDup (map doc_id (w_records w)) ->
  find_by_id id (w_records w) = Some d ->
  let deleted := RecordController.deleteRecord id w in
  fst deleted = Done (json (BMessage "Record deleted successfully")) /\
  fst (RecordController.getRecordById E id (snd deleted))
    = Done {| l_status := 404; l_body := LError "Record not found" |} /\
  fst (RecordController.deleteRecord id (snd deleted))
    = Done {| status := 404; body := BError "Record not found" |}.
Proof.
  intros Hq Hnd Hd deleted. subst deleted.
  rewrite (deleteRecord_run id w Hq). simpl. rewrite Hd. split; [reflexivity|].
  set (w1 := set_records _ _).
  assert (Hq1 : quiet w1).
  { apply (quiet_logged (RecordFindByIdAndDelete id)) in Hq. exact Hq. }
  assert (Hgone : find_by_id id (w_records w1) = None)
    by (simpl; now apply find_by_id_delete_same).
  split.
  - now apply getRecordById_missing.
  - rewrite (deleteRecord_run id w1 Hq1). cbn [fst]. now rewrite Hgone.
Qed.

(** ** The two list handlers *)

(** X6. Outside the mode without pagination the list handler of the
    mounted file and the list handler of [recordController.js] do the
    same: same response, same store calls, same cache, whatever the
    oracle. *)
Theorem list_handlers_agree_when_paged (E : Collab) (query : RawQuery) (w : World) :
  amount_only query = false ->
  MountedController.getRecords E query w = RecordController.getRecords E query w.
Proof.
  intros Hmode.
  unfold MountedController.getRecords, RecordController.getRecords.
  cbv zeta. fold (amount_only query). rewrite Hmode. reflexivity.
Qed.

Lemma mounted_getRecords_miss (E : Collab) (query : RawQuery) (w : World) :
  cached_at (cache_key E query) w = None ->
  quiet w ->
  (0 <= (page_of query - 1) * limit_of query)%Z ->
  MountedController.getRecords E query w =
  (Done (json (BList (paged_response E query w))),
   stored (cache_key E query) (paged_response E query w)
     (fold_left (fun w op => logged op w)
        [ RecordFindPaged (filter_of E query)
            ((page_of query - 1) * limit_of query) (limit_of query);
          RecordCount (filter_of E query); RecordSumAmount (filter_of E query) ] w)).
Proof.
  intros Hmiss Hq Hskip. unfold MountedController.getRecords.
  apply try_catch_done.
  rewrite (bind_done _ _ _ _ _ (cache_get_run _ w)).
  fold (filter_of E query). fold (cache_key E query). rewrite Hmiss.
  fold (page_of query). fold (limit_of query).
  rewrite (bind_done _ _ _ _ _ (find_records_paged_run E _ _ _ w Hq Hskip)).
  set (w1 := logged _ w).
  assert (Hq1 : quiet w1) by now apply quiet_logged.
  rewrite (bind_done _ _ _ _ _ (count_documents_run E _ w1 Hq1)).
  set (w2 := logged _ w1).
  assert (Hq2 : quiet w2) by now apply quiet_logged.
  rewrite (bind_done _ _ _ _ _ (aggregate_total_run E _ w2 Hq2)).
  unfold paged_response, matching.
  change (w_records w1) with (w_records w).
  change (w_records w2) with (w_records w).
  destruct (List.filter (matches E (filter_of E query)) (w_records w)); reflexivity.
Qed.

(** X7. The list handler of the mounted file has no mode without
    pagination: on a miss, the store letting the calls through and the
    skip not negative, it makes the paged find, the count and the
    aggregate, and answers the paged response, also for a query that is a
    minPrice alone; the response is then in the cache. *)
Theorem mounted_list_is_always_paged (E : Collab) (query : RawQuery) (w : World) :
  cached_at (cache_key E query) w = None ->
  quiet w ->
  (0 <= (page_of query - 1) * limit_of query)%Z ->
  let f := filter_of E query in
  let result := MountedController.getRecords E query w in
  fst result = Done (json (BList (paged_response E query w))) /\
  w_log (snd result) =
    (w_log w ++ [ RecordFindPaged f ((page_of query - 1) * limit_of query) (limit_of query);
                  RecordCount f; RecordSumAmount f ])%list /\
  cached_at (cache_key E query) (snd result) = Some (paged_response E query w).
Proof.
  intros Hmiss Hq Hskip f result. subst result.
  rewrite (mounted_getRecords_miss E query w Hmiss Hq Hskip).
  split; [reflexivity|]. split.
  - simpl. now rewrite <- !app_assoc.
  - unfold cached_at, stored. simpl. rewrite key_eqb_refl. simpl.
    destruct (Z.leb_spec (w_now w) (RecordController.ttl + w_now w)) as [_ | Hlt];
      [reflexivity|].
    unfold RecordController.ttl in Hlt. lia.
Qed.

(** ** What the filter selects *)

Lemma get_is_string (m : fields) k s :
  get m k = Js.VStr s <-> m !! k = Some (Js.VStr s).
Proof.
  unfold get. destruct (m !! k) as [v|]; simpl; split; intros H;
    try congruence; discriminate.
Qed.

Lemma get_is_number (m : fields) k q :
  get m k = Js.VNum q <-> m !! k = Some (Js.VNum q).
Proof.
  unfold get. destruct (m !! k) as [v|]; simpl; split; intros H;
    try congruence; discriminate.
Qed.

Lemma regex_holds (E : Collab) p (m : fields) k :
  holds E (CRegexI p) (get m k) = true <->
  exists s, m !! k = Some (Js.VStr s) /\ regex_test E p s = true.
Proof.
  simpl. split.
  - destruct (get m k) eqn:Hv; try discriminate.
    intros H. exists s. split; [now apply get_is_string | assumption].
  - intros (s & Hs & Ht). apply get_is_string in Hs. now rewrite Hs.
Qed.

Lemma not_equal_holds (E : Collab) u (v : Js.value) :
  holds E (CNe (Js.VStr u)) v = true <-> v <> Js.VStr u.
Proof.
  simpl. rewrite negb_true_iff. destruct v; simpl;
    try (split; [intros _; discriminate | reflexivity]).
  destruct (String.eqb_spec s u) as [-> | Hne].
  - split; [discriminate | intros H; now contradiction H].
  - split; [intros _; congruence | reflexivity].
Qed.

Lemma range_holds (E : Collab) lo hi (m : fields) k :
  holds E (CRange lo hi) (get m k) = true <->
  exists q, m !! k = Some (Js.VNum q) /\
            (forall a, lo = Some a -> num_le a (Js.Fin q) = true) /\
            (forall b, hi = Some b -> num_le (Js.Fin q) b = true).
Proof.
  simpl. split.
  - destruct (get m k) eqn:Hv; try discriminate.
    intros H. apply andb_true_iff in H as [Hlo Hhi].
    exists q. split; [now apply get_is_number|]. split.
    + intros a ->. exact Hlo.
    + intros b ->. exact Hhi.
  - intros (q & Hq & Hlo & Hhi). apply get_is_number in Hq. rewrite Hq.
    apply andb_true_iff. split.
    + destruct lo as [a|]; simpl; [now apply Hlo | reflexivity].
    + destruct hi as [b|]; simpl; [now apply Hhi | reflexivity].
Qed.

Lemma search_clause_holds (E : Collab) search paths d :
  clause_holds E d (Or (map (fun key => (key, CRegexI search)) paths)) = true <->
  exists key s, In key paths /\ doc_fields d !! key = Some (Js.VStr s) /\
                regex_test E search s = true.
Proof.
  cbn [clause_holds]. rewrite existsb_exists. split.
  - intros ([key c] & Hin & Hholds). apply in_map_iff in Hin as (key' & [= <- <-] & Hin).
    cbn [fst snd] in Hholds. apply regex_holds in Hholds as (s & Hs & Ht).
    exists key', s. auto.
  - intros (key & s & Hin & Hs & Ht). exists (key, CRegexI search). split.
    + apply in_map_iff. exists key. auto.
    + cbn [fst snd]. apply regex_holds. exists s. auto.
Qed.

(** X8. A record passes the filter of the list handlers exactly when
    some String path of the schema holds a string the search pattern
    matches, its Full_Name is not the text "undefined undefined", its
    Magazine is a string the magazine pattern matches when a magazine is
    asked for, and, when at least one bound parses as a number, its
    Amount is a number within the bounds that do, both inclusive.  A
    bound that is not a number takes no part. *)
Theorem filter_selects (E : Collab) (search magazineName : string)
  (minPrice maxPrice : Js.num) (d : Doc) :
  matches E (RecordController.build_filter E search magazineName minPrice maxPrice) d = true
  <->
  (exists key s, In key (string_paths E) /\
                 doc_fields d !! key = Some (Js.VStr s) /\
                 regex_test E search s = true) /\
  get (doc_fields d) "Full_Name" <> Js.VStr "undefined undefined" /\
  (magazineName <> EmptyString ->
   exists s, doc_fields d !! "Magazine" = Some (Js.VStr s) /\
             regex_test E magazineName s = true) /\
  (Js.isNaN minPrice = false \/ Js.isNaN maxPrice = false ->
   exists q, doc_fields d !! "Amount" = Some (Js.VNum q) /\
             (Js.isNaN minPrice = false -> num_le minPrice (Js.Fin q) = true) /\
             (Js.isNaN maxPrice = false -> num_le (Js.Fin q) maxPrice = true)).
Proof.
  unfold matches, RecordController.build_filter.
  rewrite !forallb_app. cbn [forallb]. rewrite andb_true_r, !andb_true_iff.
  rewrite search_clause_holds.
  change (clause_holds E d (Field "Full_Name" (CNe (Js.VStr "undefined undefined"))))
    with (holds E (CNe (Js.VStr "undefined undefined")) (get (doc_fields d) "Full_Name")).
  rewrite not_equal_holds.
  assert (Hmag :
    forallb (clause_holds E d)
      (if RecordController.blank magazineName then []
       else [Field "Magazine" (CRegexI magazineName)]) = true
    <-> (magazineName <> EmptyString ->
         exists s, doc_fields d !! "Magazine" = Some (Js.VStr s) /\
                   regex_test E magazineName s = true)).
  { unfold RecordController.blank.
    destruct (String.eqb_spec magazineName EmptyString) as [-> | Hne]; cbn [forallb].
    - split; [intros _ H; now contradiction H | reflexivity].
    - rewrite andb_true_r. cbn [clause_holds]. rewrite regex_holds. tauto. }
  assert (Hamount :
    forallb (clause_holds E d)
      (if negb (Js.isNaN minPrice) && negb (Js.isNaN maxPrice)
       then [Field "Amount" (CRange (Some minPrice) (Some maxPrice))]
       else if negb (Js.isNaN minPrice)
       then [Field "Amount" (CRange (Some minPrice) None)]
       else if negb (Js.isNaN maxPrice)
       then [Field "Amount" (CRange None (Some maxPrice))]
       else []) = true
    <-> (Js.isNaN minPrice = false \/ Js.isNaN maxPrice = false ->
         exists q, doc_fields d !! "Amount" = Some (Js.VNum q) /\
                   (Js.isNaN minPrice = false -> num_le minPrice (Js.Fin q) = true) /\
                   (Js.isNaN maxPrice = false -> num_le (Js.Fin q) maxPrice = true))).
  { destruct (Js.isNaN minPrice) eqn:Hmin, (Js.isNaN maxPrice) eqn:Hmax;
      cbn [negb andb forallb]; rewrite ?andb_true_r; cbn [clause_holds];
      rewrite ?range_holds.
    - split; [intros _ [H | H]; discriminate H | reflexivity].
    - split.
      + intros (q & Hq & _ & Hhi) _. exists q. split; [assumption|].
        split; [discriminate | intros _; now apply Hhi].
      + intros H. destruct (H (or_intror eq_refl)) as (q & Hq & _ & Hhi).
        exists q. split; [assumption|]. split; [discriminate|].
        intros b [= <-]. now apply Hhi.
    - split.
      + intros (q & Hq & Hlo & _) _. exists q. split; [assumption|].
        split; [intros _; now apply Hlo | discriminate].
      + intros H. destruct (H (or_introl eq_refl)) as (q & Hq & Hlo & _).
        exists q. split; [assumption|]. split; [|discriminate].
        intros a [= <-]. now apply Hlo.
    - split.
      + intros (q & Hq & Hlo & Hhi) _. exists q. split; [assumption|].
        split; intros _; [now apply Hlo | now apply Hhi].
      + intros H. destruct (H (or_introl eq_refl)) as (q & Hq & Hlo & Hhi).
        exists q. split; [assumption|].
        split; [intros a [= <-]; now apply Hlo | intros b [= <-]; now apply Hhi]. }
  rewrite Hmag, Hamount. tauto.
Qed.

(** ** The sum of the mode without pagination *)





(** ** Pages *)

(** X10. With a positive limit and a page from 1 on, a paged list
    response computed on a miss holds at most limit records; it holds
    exactly limit records on every page before the last, at least one on
    every page up to the last, and none on a page past totalPages. *)
Theorem pages_partition_the_matches (E : Collab) (query : RawQuery) (w : World) :
  cached_at (cache_key E query) w = None ->
  amount_only query = false ->
  quiet w ->
  (0 < limit_of query)%Z ->
  (1 <= page_of query)%Z ->
  exists r,
    fst (RecordController.getRecords E query w) = Done (json (BList r)) /\
    (Z.of_nat (length (records r)) <= limit_of query)%Z /\
    ((page_of query < totalPages r)%Z ->
       Z.of_nat (length (records r)) = limit_of query) /\
    ((page_of query <= totalPages r)%Z -> records r <> []) /\
    ((totalPages r < page_of query)%Z -> records r = []).
Proof.
  intros Hmiss Hmode Hq Hlimit Hpage.
  assert (Hskip : (0 <= (page_of query - 1) * limit_of query)%Z) by nia.
  exists (paged_response E query w).
  rewrite (getRecords_miss_paged E query w Hmiss Hmode Hq Hskip).
  split; [reflexivity|].
  unfold paged_response. cbn [records totalPages].
  set (found := matching E (filter_of E query) w).
  set (L := limit_of query) in *. set (p := page_of query) in *.
  destruct (Z.eqb_spec L 0) as [Hz | _]; [lia|].
  pose proof (ceil_div_is_ceiling (Z.of_nat (length found)) L Hlimit) as Hceil.
  set (T := RecordController.ceil_div (Z.of_nat (length found)) L) in *.
  assert (Hlen : length (take (Z.abs_nat L) (drop (Z.to_nat ((p - 1) * L)) found))
                 = Nat.min (Z.abs_nat L) (length found - Z.to_nat ((p - 1) * L))).
  { now rewrite length_take, length_drop. }
  split; [|split; [|split]].
  - rewrite Hlen. lia.
  - intros Hlt. rewrite Hlen. nia.
  - intros Hle Hnil. apply (f_equal (@length _)) in Hnil. rewrite Hlen in Hnil.
    simpl in Hnil. nia.
  - intros Hgt. apply length_zero_iff_nil. rewrite Hlen. nia.
Qed.

(** ** What reading never does *)

Lemma keeps_inv_write (I : World -> Prop) (f : World -> World) :
  (forall w, I w -> I (f w)) -> keeps_inv I (write f).
Proof. intros Hf w Hw. simpl. now apply Hf. Qed.

Ltac frame_read :=
  repeat first
    [ apply keeps_inv_bind; [|intros ?]
    | apply keeps_inv_try_catch; [|intros ?]
    | apply keeps_inv_store_call; [intros ? ? ? ?; split; assumption|]
    | apply keeps_inv_write; intros ? ?; assumption
    | apply keeps_inv_ret
    | apply keeps_inv_throw
    | apply keeps_inv_read
    | match goal with |- keeps_inv _ (match ?x with _ => _ end) => destruct x end
    | match goal with |- keeps_inv _ (if ?x then _ else _) => destruct x end ].

Lemma getRecords_reads_only (E : Collab) (query : RawQuery) (s : list Doc * list Doc * Id) (t : Z) :
  keeps_inv (fun w => store_of w = s /\ w_now w = t) (RecordController.getRecords E query).
Proof.
  unfold RecordController.getRecords, find_records, find_records_paged, count_documents,
    aggregate_total, cache_get, cache_put.
  frame_read.
Qed.

Lemma mounted_getRecords_reads_only (E : Collab) (query : RawQuery)
  (s : list Doc * list Doc * Id) (t : Z) :
  keeps_inv (fun w => store_of w = s /\ w_now w = t) (MountedController.getRecords E query).
Proof.
  unfold MountedController.getRecords, find_records_paged, count_documents,
    aggregate_total, cache_get, cache_put.
  frame_read.
Qed.

Lemma getRecordById_reads_only (E : Collab) (id : Id)
  (s : list Doc * list Doc * Id) (c : list (CacheKey * CacheRecord)) :
  keeps_inv (fun w => store_of w = s /\ w_cache w = c) (RecordController.getRecordById E id).
Proof.
  unfold RecordController.getRecordById, record_find_by_id, find_records, user_find_one.
  frame_read.
Qed.

(** X11. Reading never writes: whatever the query, the identifier, the
    cache and the oracle, neither list handler nor the lookup changes the
    Record collection, the User collection or the identifier supply, and
    the lookup leaves the cache alone as well. *)
Theorem reading_never_writes (E : Collab) (query : RawQuery) (id : Id) (w : World) :
  store_of (snd (RecordController.getRecords E query w)) = store_of w /\
  store_of (snd (MountedController.getRecords E query w)) = store_of w /\
  store_of (snd (RecordController.getRecordById E id w)) = store_of w /\
  w_cache (snd (RecordController.getRecordById E id w)) = w_cache w.
Proof.
  split; [|split].
  - now apply (getRecords_reads_only E query (store_of w) (w_now w) w).
  - now apply (mounted_getRecords_reads_only E query (store_of w) (w_now w) w).
  - now apply (getRecordById_reads_only E id (store_of w) (w_cache w) w).
Qed.

(** ** One query does not evict another *)



(** ** The cascade when the store fails *)

Lemma returns_ret {A} (P : A -> Prop) (a : A) : P a -> returns P (ret a).
Proof. intros Ha w a' w' [= <- _]. exact Ha. Qed.

Lemma returns_bind {A B} (P : B -> Prop) (m : M A) (k : A -> M B) :
  (forall a, returns P (k a)) -> returns P (bind m k).
Proof.
  intros Hk w b w'. unfold bind.
  destruct (m w) as [[a | msg] w1]; [apply Hk | discriminate].
Qed.

Lemma threw_keeps_of_keeps {A} (I : World -> Prop) (m : M A) :
  keeps_inv I m -> threw_keeps I m.
Proof.
  intros Hm w Hw. specialize (Hm w Hw). destruct (m w) as [[a | msg] w']; [trivial | exact Hm].
Qed.

Lemma threw_keeps_bind {A B} (I : World -> Prop) (m : M A) (k : A -> M B) :
  keeps_inv I m -> (forall a, threw_keeps I (k a)) -> threw_keeps I (bind m k).
Proof.
  intros Hm Hk w Hw. unfold bind. specialize (Hm w Hw).
  destruct (m w) as [[a | msg] w1]; simpl in Hm; [now apply Hk | exact Hm].
Qed.

Lemma threw_keeps_store_call {A} (I : World -> Prop) op (run : M A) :
  log_blind I -> threw_keeps I run -> threw_keeps I (store_call op run).
Proof.
  intros Hblind Hrun w Hw. unfold store_call.
  destruct (w_faults w) as [|[msg|] rest].
  - apply Hrun. exact (proj2 (Hblind w _ [] Hw)).
  - exact (proj1 (Hblind w _ _ Hw)).
  - apply Hrun. exact (proj1 (Hblind w _ _ Hw)).
Qed.

Lemma try_catch_bind_done {A B} (m : M A) (k : A -> M B) (h : string -> M B)
  (w : World) a w1 :
  m w = (Done a, w1) -> try_catch (bind m k) h w = try_catch (k a) h w1.
Proof. intros Hm. unfold try_catch, bind. now rewrite Hm. Qed.

Lemma users_log_blind (us : list Doc) : log_blind (fun w => w_users w = us).
Proof. intros w l fs Hw. split; exact Hw. Qed.

Lemma keeps_users_record_update (us : list Doc) id update rv :
  keeps_inv (fun w => w_users w = us) (record_find_by_id_and_update id update rv).
Proof.
  unfold record_find_by_id_and_update.
  apply keeps_inv_store_call; [apply users_log_blind|]. intros w Hw. exact Hw.
Qed.

Lemma keeps_users_read (us : list Doc) {A} op (f : World -> A) :
  keeps_inv (fun w => w_users w = us) (store_call op (read f)).
Proof.
  apply keeps_inv_store_call; [apply users_log_blind | apply keeps_inv_read].
Qed.

Lemma threw_keeps_then_ret {A B} (I : World -> Prop) (m : M A) (b : B) :
  threw_keeps I m -> threw_keeps I (bind m (fun _ => ret b)).
Proof.
  intros Hm w Hw. unfold bind. specialize (Hm w Hw).
  destruct (m w) as [[a | msg] w1]; [trivial | exact Hm].
Qed.

(** X13. When the cascade answers 500, no User was changed: the write to
    the User is the last call of the handler, and every earlier failure
    ends the handler before it.  The handler always answers. *)
Theorem cascade_failure_leaves_users (E : Collab) (id : Id) (body : option fields) (w : World) :
  let result := MountedController.updateRecord E id body w in
  exists r, fst result = Done r /\
    (status r = 500%Z -> w_users (snd result) = w_users w).
Proof.
  intros result. subst result. unfold MountedController.updateRecord.
  set (B := match body with
            | Some data => _
            | None => _
            end).
  assert (Hret : returns (fun r => status r <> 500%Z) B).
  { subst B. destruct body as [data|]; [|now apply returns_ret].
    apply returns_bind. intros [updatedRecord|]; [|now apply returns_ret].
    repeat (apply returns_bind; intros ?). now apply returns_ret. }
  assert (Hthrew : threw_keeps (fun w' => w_users w' = w_users w) B).
  { subst B. destruct body as [data|];
      [|apply threw_keeps_of_keeps, keeps_inv_ret].
    apply threw_keeps_bind; [apply keeps_users_record_update|].
    intros [updatedRecord|]; [|apply threw_keeps_of_keeps, keeps_inv_ret].
    apply threw_keeps_bind; [apply keeps_users_read|]. intros sameEmailRecords.
    apply threw_keeps_bind.
    { apply keeps_inv_all_of. intros record. apply keeps_users_record_update. }
    intros _.
    apply threw_keeps_bind; [apply keeps_users_read|]. intros found.
    apply threw_keeps_then_ret.
    destruct found as [userDetails|]; [|apply threw_keeps_of_keeps, keeps_inv_ret].
    apply threw_keeps_then_ret. unfold user_find_by_id_and_update.
    apply threw_keeps_store_call; [apply users_log_blind|].
    intros w0 _. simpl. trivial. }
  unfold try_catch. specialize (Hthrew w eq_refl). specialize (Hret w).
  destruct (B w) as [[r | msg] w'].
  - exists r. split; [reflexivity|]. intros H500. exfalso.
    now apply (Hret r w' eq_refl).
  - eexists. split; [reflexivity|]. intros _. exact Hthrew.
Qed.

Lemma store_call_let_through {A} (op : DbOp) (run : M A) (w : World) :
  rejects (hd None (w_faults w)) = false ->
  store_call op run w = run (logged op w).
Proof.
  unfold store_call, logged. destruct w as [rs us c t n fs l]; simpl.
  destruct fs as [|[msg|] rest]; simpl; try reflexivity. discriminate.
Qed.

Lemma keeps_stored_record_update (id : Id) (d : Doc) (data : fields) id' rv :
  with_fields (apply_update data) d = d ->
  keeps_inv (fun w => find_by_id id (w_records w) = Some d)
            (record_find_by_id_and_update id' data rv).
Proof.
  intros Hfix. unfold record_find_by_id_and_update.
  apply keeps_inv_store_call; [intros w l fs Hw; split; exact Hw|].
  intros w Hw. simpl. destruct (N.eq_dec id' id) as [-> | Hne].
  - rewrite (find_by_id_update_same _ _ _ _ Hw). now rewrite Hfix.
  - rewrite find_by_id_update_other; [exact Hw | congruence].
Qed.

(** X14. The cascade does not roll back: once the first call, the update
    of the target, is let through for an existing record, the target
    keeps the payload whatever the store does to the later calls, and the
    answer is 200 or 500. *)
Theorem cascade_keeps_primary_update
  (E : Collab) (id : Id) (data : fields) (w : World) (target : Doc) :
  rejects (hd None (w_faults w)) = false ->
  find_by_id id (w_records w) = Some target ->
  let result := MountedController.updateRecord E id (Some data) w in
  find_by_id id (w_records (snd result))
    = Some (with_fields (apply_update data) target) /\
  exists r, fst result = Done r /\ (status r = 200%Z \/ status r = 500%Z).
Proof.
  intros Hfirst Htarget result.
  set (updated := with_fields (apply_update data) target).
  set (w1 := set_records (update_by_id id (apply_update data) (w_records w))
                         (logged (RecordFindByIdAndUpdate id data false) w)).
  assert (H1 : record_find_by_id_and_update id data false w = (Done (Some updated), w1)).
  { unfold record_find_by_id_and_update. rewrite store_call_let_through by assumption.
    cbv beta. change (w_records (logged _ w)) with (w_records w).
    now rewrite (find_by_id_update_same _ _ _ _ Htarget). }
  assert (Hfix : with_fields (apply_update data) updated = updated).
  { apply with_fields_idem. intros m. apply apply_update_idem. }
  assert (Hw1 : find_by_id id (w_records w1) = Some updated).
  { simpl. now apply find_by_id_update_same. }
  subst result. unfold MountedController.updateRecord.
  rewrite (try_catch_bind_done _ _ _ _ _ _ H1). cbv beta iota.
  set (K := bind (find_records E _) _).
  assert (Hkeeps : keeps_inv (fun w' => find_by_id id (w_records w') = Some updated) K).
  { subst K. unfold find_records, user_find_one.
    apply keeps_inv_bind.
    { apply keeps_inv_store_call; [intros ? ? ? H; split; exact H | apply keeps_inv_read]. }
    intros sameEmailRecords. apply keeps_inv_bind.
    { apply keeps_inv_all_of. intros record. now apply keeps_stored_record_update. }
    intros _. apply keeps_inv_bind.
    { apply keeps_inv_store_call; [intros ? ? ? H; split; exact H | apply keeps_inv_read]. }
    intros found. apply keeps_inv_bind; [|intros ?; apply keeps_inv_ret].
    destruct found as [userDetails|]; [|apply keeps_inv_ret].
    apply keeps_inv_bind; [|intros ?; apply keeps_inv_ret].
    unfold user_find_by_id_and_update.
    apply keeps_inv_store_call; [intros ? ? ? H; split; exact H|].
    intros w0 Hw0. exact Hw0. }
  assert (Hret : returns (fun r => status r = 200%Z) K).
  { subst K. repeat (apply returns_bind; intros ?). now apply returns_ret. }
  unfold try_catch. specialize (Hkeeps w1 Hw1). specialize (Hret w1).
  destruct (K w1) as [[r | msg] w'].
  - split; [exact Hkeeps|]. exists r. split; [reflexivity|]. left.
    now apply (Hret r w').
  - split; [exact Hkeeps|]. eexists. split; [reflexivity|]. now right.
Qed.

(** ** Keys the schema does not name *)

Lemma unknown_keys_spec (schema : list JoiKey) (data : fields) key :
  In key (unknown_keys schema data) <->
  data !! key <> None /\ ~ In key (schema_names schema).
Proof.
  unfold unknown_keys, schema_names. rewrite filter_In, negb_true_iff. split.
  - intros [Hin Hnot]. apply in_map_iff in Hin as ([key' v] & Hkey & Hin).
    simpl in Hkey. subst key'.
    apply list_elem_of_In, elem_of_map_to_list in Hin. split; [congruence|].
    intros Hnamed. apply in_map_iff in Hnamed as (k & Hk & Hschema).
    assert (Htrue : existsb (fun j => String.eqb (jk_key j) key) schema = true).
    { apply existsb_exists. exists k. split; [assumption | now apply String.eqb_eq]. }
    congruence.
  - intros [Hsome Hnot]. split.
    + destruct (data !! key) as [v|] eqn:Hv; [|congruence].
      apply in_map_iff. exists (key, v). split; [reflexivity|].
      now apply list_elem_of_In, elem_of_map_to_list.
    + destruct (existsb _ schema) eqn:Hex; [|reflexivity].
      exfalso. apply Hnot. apply existsb_exists in Hex as (k & Hk & Heq).
      apply String.eqb_eq in Heq. apply in_map_iff. exists k. auto.
Qed.

(** X15. A create whose payload has a key the schema does not name is
    answered 400 and nothing is stored, no store call is made; when every
    key of the schema passes its rule, the message is that of a key of
    the payload that is not allowed. *)
Theorem create_rejects_unknown_key (E : Collab) (data : fields) (w : World) key :
  data !! key <> None ->
  ~ In key (schema_names recordSchema) ->
  exists e,
    RecordController.createRecord E (Some data) w
      = (Done {| status := 400; body := BError (message e) |}, w) /\
    ((forall k, In k recordSchema -> validate_key E k (get data (jk_key k)) = None) ->
     je_type e = object_unknown /\
     data !! je_key e <> None /\
     ~ In (je_key e) (schema_names recordSchema)).
Proof.
  intros Hsome Hnot.
  destruct (validate_keys E recordSchema data) as [e|] eqn:Hv.
  - exists e. split.
    + apply createRecord_invalid. unfold validate. now rewrite Hv.
    + intros Hall. apply (validate_keys_none E recordSchema data) in Hall. congruence.
  - assert (Hin : In key (unknown_keys recordSchema data))
      by (apply unknown_keys_spec; auto).
    destruct (unknown_keys recordSchema data) as [|k rest] eqn:Hu; [destruct Hin|].
    exists {| je_key := k; je_type := object_unknown |}. split.
    + apply createRecord_invalid. unfold validate. now rewrite Hv, Hu.
    + intros _. split; [reflexivity|]. simpl.
      apply (unknown_keys_spec recordSchema data k). rewrite Hu. now left.
Qed.

(** ** When the mode without pagination is taken *)

(** X16. The three clauses of the test for the mode without pagination
    come to this: no search term, no magazine, a minPrice that parses as
    a number, and either that minPrice finite or no maxPrice that parses
    as a number. *)
Theorem isAmountFilterOnly_spelled_out (search magazineName : string)
  (minPrice maxPrice : Js.num) :
  RecordController.isAmountFilterOnly search magazineName minPrice maxPrice
  = RecordController.blank search && RecordController.blank magazineName
    && negb (Js.isNaN minPrice)
    && (Js.isFinite minPrice || Js.isNaN maxPrice).
Proof.
  unfold RecordController.isAmountFilterOnly.
  destruct (RecordController.blank search), (RecordController.blank magazineName),
    minPrice, maxPrice; reflexivity.
Qed.

(** ** Repeating the update addressed by [?id=] *)

Lemma update_by_id_idem id (f : fields -> fields) ds :
  (forall m, f (f m) = f m) ->
  update_by_id id f (update_by_id id f ds) = update_by_id id f ds.
Proof.
  intros Hidem. induction ds as [|d rest IH]; simpl; [reflexivity|].
  destruct (N.eqb (doc_id d) id) eqn:Heq; simpl.
  - rewrite Heq. now rewrite Hidem.
  - rewrite Heq. now rewrite IH.
Qed.

Lemma updateRecord_run (id : Id) (data : fields) (w : World) :
  quiet w ->
  let kept : fields :=
    filter (fun kv : string * Js.value =>
              negb (Js.is_empty_string (snd kv)) && negb (Js.is_undefined (snd kv)) = true)
           data in
  RecordController.updateRecord id (Some data) w =
  if (size kept =? 0)%nat
  then (Done {| status := 400; body := BError "No valid fields to update" |}, w)
  else
    (Done (json (BDoc (find_by_id id
                         (update_by_id id (apply_update kept) (w_records w))))),
     set_records (update_by_id id (apply_update kept) (w_records w))
                 (logged (RecordFindByIdAndUpdate id kept true) w)).
Proof.
  intros Hq kept. unfold RecordController.updateRecord, try_catch, bind, ret.
  simpl. fold kept. destruct (size kept =? 0)%nat; [reflexivity|].
  unfold record_find_by_id_and_update. now rewrite store_call_quiet by assumption.
Qed.

(** X17. The update addressed by [?id=] can be repeated: sent a second
    time with the same identifier and payload, the store letting the
    calls through, it gives the same answer and leaves every record as
    the first update left it. *)
Theorem full_update_is_idempotent (id : Id) (data : fields) (w : World) :
  quiet w ->
  let first := RecordController.updateRecord id (Some data) w in
  let second := RecordController.updateRecord id (Some data) (snd first) in
  fst second = fst first /\
  w_records (snd second) = w_records (snd first).
Proof.
  intros Hq first second. subst second first.
  rewrite (updateRecord_run id data w Hq). cbv zeta.
  set (kept := filter _ data).
  destruct (size kept =? 0)%nat eqn:Hs.
  - cbn [snd fst]. rewrite (updateRecord_run id data w Hq). cbv zeta. fold kept.
    now rewrite Hs.
  - cbn [snd fst].
    set (w1 := set_records _ _).
    assert (Hq1 : quiet w1).
    { apply (quiet_logged (RecordFindByIdAndUpdate id kept true)) in Hq. exact Hq. }
    rewrite (updateRecord_run id data w1 Hq1). cbv zeta. fold kept. rewrite Hs.
    cbn [snd fst]. change (w_records w1)
      with (update_by_id id (apply_update kept) (w_records w)).
    rewrite update_by_id_idem by (intros m; apply apply_update_idem).
    split; reflexivity.
Qed.

(** ** The footprint of the single-record writers *)

Lemma keeps_inv_bind_returns {A B} (I : World -> Prop) (P : A -> Prop)
  (m : M A) (k : A -> M B) :
  keeps_inv I m -> returns P m -> (forall a, P a -> keeps_inv I (k a)) ->
  keeps_inv I (bind m k).
Proof.
  intros Hm Hp Hk w Hw. unfold bind. specialize (Hm w Hw). specialize (Hp w).
  destruct (m w) as [[a | msg] w1]; simpl in *; [|assumption].
  apply Hk; [now apply (Hp a w1) | assumption].
Qed.

Lemma record_find_by_id_returns (id : Id) :
  returns (fun found => forall d, found = Some d -> doc_id d = id) (record_find_by_id id).
Proof.
  intros w found w'. unfold record_find_by_id, store_call, read.
  destruct (w_faults w) as [|[msg|] rest]; intros [= <- _]; try discriminate;
    intros d Hd; now apply find_by_id_Some in Hd.
Qed.

(** X18. The update addressed by [?id=], the notes update and the delete
    touch one record only: whatever the payload and whatever the store
    lets through or rejects, a record under any other identifier is found
    as before, and no User changes. *)
Theorem single_record_writers_footprint
  (id id' : Id) (body : option fields) (w : World) :
  id' <> id ->
  let untouched (w' : World) :=
    find_by_id id' (w_records w') = find_by_id id' (w_records w) /\
    w_users w' = w_users w in
  untouched (snd (RecordController.updateRecord id body w)) /\
  untouched (snd (RecordController.updateRecordNotes id body w)) /\
  untouched (snd (RecordController.deleteRecord id w)).
Proof.
  intros Hne untouched.
  assert (Hblind : log_blind untouched) by (intros w0 l fs H; split; exact H).
  assert (Hupdate : forall f,
            keeps_inv untouched
              (fun w0 => (Done tt, set_records (update_by_id id f (w_records w0)) w0))).
  { intros f w0 [Hx Hus]. split; simpl; [|exact Hus].
    now rewrite find_by_id_update_other. }
  assert (Hw : untouched w) by (split; reflexivity).
  split; [|split].
  - assert (Hk : keeps_inv untouched (RecordController.updateRecord id body)).
    { unfold RecordController.updateRecord. frame_inv.
      unfold record_find_by_id_and_update.
      apply keeps_inv_store_call; [exact Hblind|].
      intros w0 H0. exact (Hupdate _ w0 H0). }
    now apply Hk.
  - assert (Hk : keeps_inv untouched (RecordController.updateRecordNotes id body)).
    { unfold RecordController.updateRecordNotes.
      apply keeps_inv_bind; [destruct body; [apply keeps_inv_ret | apply keeps_inv_throw]|].
      intros data. apply keeps_inv_try_catch; [|intros ?; apply keeps_inv_ret].
      apply (keeps_inv_bind_returns untouched _ _ _
               ltac:(unfold record_find_by_id;
                     apply keeps_inv_store_call; [exact Hblind | apply keeps_inv_read])
               (record_find_by_id_returns id)).
      intros [record|] Hfound; [|apply keeps_inv_ret].
      apply keeps_inv_bind; [|intros ?; apply keeps_inv_ret].
      unfold save_record. apply keeps_inv_store_call; [exact Hblind|].
      apply keeps_inv_write. cbn [doc_id]. rewrite (Hfound record eq_refl).
      intros w0 H0. exact (Hupdate _ w0 H0). }
    now apply Hk.
  - assert (Hk : keeps_inv untouched (RecordController.deleteRecord id)).
    { unfold RecordController.deleteRecord. frame_inv.
      unfold record_find_by_id_and_delete.
      apply keeps_inv_store_call; [exact Hblind|].
      intros w0 [Hx Hus]. split; simpl; [|exact Hus].
      now rewrite find_by_id_delete_other. }
    now apply Hk.
Qed.

(** ** More of the statements at work on the sample world *)

Lemma sample_ids_ok : ids_ok Sample.world.
Proof.
  split; [exact sample_record_ids|].
  intros d Hd. simpl in Hd.
  destruct Hd as [<- | [<- | [<- | [<- | []]]]]; vm_compute; reflexivity.
Defined.

Lemma sample_payload_valid : payload_valid Sample.collab Sample.valid_payload.
Proof.
  split.
  - intros k Hk. simpl in Hk.
    destruct Hk as [<- | [<- | [<- | [<- | [<- | [<- | [<- | [<- | []]]]]]]]];
      vm_compute; reflexivity.
  - intros key Hkey. apply known_key. unfold Sample.valid_payload in Hkey.
    repeat (rewrite lookup_insert in Hkey;
            destruct (decide (_ = key)) as [<- | _]; [vm_compute; reflexivity|]).
    rewrite lookup_empty in Hkey. congruence.
Defined.

Lemma write_step_keeps_ids_witness :
  ids_ok (snd (RecordController.createRecord Sample.collab (Some Sample.valid_payload)
                 Sample.world)).
Proof.
  apply (write_step_keeps_ids Sample.collab Sample.world).
  - apply step_create.
  - exact sample_ids_ok.
Defined.

Lemma delete_witness :
  find_by_id 2%N (w_records (snd (RecordController.deleteRecord 2%N Sample.world))) = None /\
  find_by_id 3%N (w_records (snd (RecordController.deleteRecord 2%N Sample.world)))
    = Some Sample.r3.
Proof.
  destruct (delete_removes_one_record 2%N Sample.world sample_quiet sample_record_ids)
    as (Hfound & _).
  destruct (Hfound Sample.r2) as (_ & Hgone & _ & Hothers).
  - vm_compute. reflexivity.
  - split; [exact Hgone|]. rewrite Hothers by discriminate. vm_compute. reflexivity.
Defined.

Lemma lookup_witness :
  exists same user,
    fst (RecordController.getRecordById Sample.collab 2%N Sample.world)
      = Done {| l_status := 200; l_body := LFound Sample.r2 same user |} /\
    In Sample.r1 same /\ ~ In Sample.r4 same /\ user = Some Sample.u1.
Proof.
  destruct (lookup_returns_record_siblings_and_user Sample.collab 2%N Sample.world
              sample_quiet) as (_ & Hfound & _).
  destruct (Hfound Sample.r2) as (same & user & Hfst & Hsame & _ & Huser).
  - vm_compute. reflexivity.
  - exists same, user. split; [exact Hfst|]. split; [|split].
    + apply Hsame. split; [simpl; tauto | vm_compute; reflexivity].
    + intros Hin. apply Hsame in Hin as [_ Hq]. vm_compute in Hq. discriminate Hq.
    + rewrite Huser. vm_compute. reflexivity.
Defined.

Lemma created_record_witness :
  exists same user,
    fst (RecordController.getRecordById Sample.collab 5%N
           (snd (RecordController.createRecord Sample.collab (Some Sample.valid_payload)
                   Sample.world)))
    = Done {| l_status := 200;
              l_body := LFound {| doc_id := 5%N; doc_fields := Sample.valid_payload |}
                               same user |}.
Proof.
  destruct (created_record_is_retrievable Sample.collab Sample.valid_payload Sample.world
              sample_payload_valid sample_quiet sample_ids_ok)
    as (_ & same & user & Hfst & _).
  exists same, user. exact Hfst.
Defined.

Lemma deleted_record_witness :
  fst (RecordController.getRecordById Sample.collab 2%N
         (snd (RecordController.deleteRecord 2%N Sample.world)))
  = Done {| l_status := 404; l_body := LError "Record not found" |}.
Proof.
  destruct (deleted_record_is_gone Sample.collab 2%N Sample.world Sample.r2
              sample_quiet sample_record_ids) as (_ & Hlookup & _).
  - vm_compute. reflexivity.
  - exact Hlookup.
Defined.

Lemma list_handlers_agree_witness :
  MountedController.getRecords Sample.collab Sample.paged_query Sample.world
  = RecordController.getRecords Sample.collab Sample.paged_query Sample.world.
Proof.
  apply list_handlers_agree_when_paged. vm_compute. reflexivity.
Defined.

Lemma mounted_list_witness :
  fst (MountedController.getRecords Sample.collab Sample.min_only_query Sample.world)
  = Done (json (BList (paged_response Sample.collab Sample.min_only_query Sample.world))) /\
  amount_only Sample.min_only_query = true.
Proof.
  split; [|vm_compute; reflexivity].
  destruct (mounted_list_is_always_paged Sample.collab Sample.min_only_query Sample.world)
    as (Hfst & _).
  - vm_compute. reflexivity.
  - exact sample_quiet.
  - apply Z.leb_le. vm_compute. reflexivity.
  - exact Hfst.
Defined.


Lemma pages_witness :
  exists r,
    fst (RecordController.getRecords Sample.collab Sample.paged_query Sample.world)
      = Done (json (BList r)) /\
    records r <> [].
Proof.
  destruct (pages_partition_the_matches Sample.collab Sample.paged_query Sample.world)
    as (r & Hfst & _ & _ & Hsome & _).
  - vm_compute. reflexivity.
  - vm_compute. reflexivity.
  - exact sample_quiet.
  - apply Z.ltb_lt. vm_compute. reflexivity.
  - apply Z.leb_le. vm_compute. reflexivity.
  - exists r. split; [exact Hfst|]. apply Hsome.
    assert (Hr : r = paged_response Sample.collab Sample.paged_query Sample.world).
    { assert (Hrun : fst (RecordController.getRecords Sample.collab Sample.paged_query
                            Sample.world)
                     = Done (json (BList (paged_response Sample.collab Sample.paged_query
                                            Sample.world))))
        by (vm_compute; reflexivity).
      rewrite Hfst in Hrun. now injection Hrun. }
    rewrite Hr. apply Z.leb_le. vm_compute. reflexivity.
Defined.


Lemma cascade_failure_witness :
  exists r,
    fst (MountedController.updateRecord Sample.collab 2%N (Some Sample.new_magazine)
           Sample.half_failing_world) = Done r /\
    status r = 500%Z /\
    w_users (snd (MountedController.updateRecord Sample.collab 2%N (Some Sample.new_magazine)
                    Sample.half_failing_world))
    = w_users Sample.half_failing_world.
Proof.
  destruct (cascade_failure_leaves_users Sample.collab 2%N (Some Sample.new_magazine)
              Sample.half_failing_world) as (r & Hfst & Husers).
  assert (Hstatus : status r = 500%Z).
  { assert (Hrun : fst (MountedController.updateRecord Sample.collab 2%N
                          (Some Sample.new_magazine) Sample.half_failing_world)
                   = Done {| status := 500;
                             body := BMessageError "Error updating records"
                                                   "connection lost" |})
      by (vm_compute; reflexivity).
    rewrite Hfst in Hrun. injection Hrun as ->. reflexivity. }
  exists r. split; [exact Hfst|]. split; [exact Hstatus | now apply Husers].
Defined.

Lemma cascade_primary_witness :
  find_by_id 2%N
    (w_records (snd (MountedController.updateRecord Sample.collab 2%N
                       (Some Sample.new_magazine) Sample.half_failing_world)))
  = Some (with_fields (apply_update Sample.new_magazine) Sample.r2).
Proof.
  destruct (cascade_keeps_primary_update Sample.collab 2%N Sample.new_magazine
              Sample.half_failing_world Sample.r2) as (Hkept & _).
  - vm_compute. reflexivity.
  - vm_compute. reflexivity.
  - exact Hkept.
Defined.

Lemma unknown_key_witness :
  exists e,
    RecordController.createRecord Sample.collab (Some Sample.with_phone) Sample.world
      = (Done {| status := 400; body := BError (message e) |}, Sample.world) /\
    je_type e = object_unknown.
Proof.
  destruct (create_rejects_unknown_key Sample.collab Sample.with_phone Sample.world "Phone")
    as (e & Hrun & Hunknown).
  - vm_compute. discriminate.
  - vm_compute. intuition discriminate.
  - exists e. split; [exact Hrun|]. apply Hunknown.
    intros k Hk. simpl in Hk.
    destruct Hk as [<- | [<- | [<- | [<- | [<- | [<- | [<- | [<- | []]]]]]]]];
      vm_compute; reflexivity.
Defined.

Lemma idempotent_update_witness :
  w_records
    (snd (RecordController.updateRecord 2%N (Some Sample.partial_payload)
            (snd (RecordController.updateRecord 2%N (Some Sample.partial_payload)
                    Sample.world))))
  = w_records (snd (RecordController.updateRecord 2%N (Some Sample.partial_payload)
                      Sample.world)).
Proof.
  exact (proj2 (full_update_is_idempotent 2%N Sample.partial_payload Sample.world
                  sample_quiet)).
Defined.

Lemma footprint_witness :
  find_by_id 1%N
    (w_records (snd (RecordController.deleteRecord 2%N Sample.failing_world)))
  = find_by_id 1%N (w_records Sample.failing_world).
Proof.
  destruct (single_record_writers_footprint 2%N 1%N None Sample.failing_world)
    as (_ & _ & Hdelete & _).
  - discriminate.
  - exact Hdelete.
Defined.

Lemma min_price_witness :
  exists r,
    fst (RecordController.getRecords Sample.collab Sample.min_only_query Sample.world)
      = Done (json (BList r)) /\
    map doc_id (records r) = [1%N; 2%N; 4%N] /\ totalPages r = 1%Z.
Proof.
  destruct (min_price_request_is_unpaged Sample.collab Sample.min_only_query Sample.world)
    as (r & Hfst & Hrecords & _ & Hpages & _).
  - vm_compute. reflexivity.
  - reflexivity.
  - reflexivity.
  - vm_compute. reflexivity.
  - exact sample_quiet.
  - exists r. split; [exact Hfst|]. split; [|exact Hpages].
    rewrite Hrecords. vm_compute. reflexivity.
Defined.

Lemma cascade_404_witness :
  fst (MountedController.updateRecord Sample.collab 99%N (Some Sample.new_magazine)
         Sample.world)
  = Done {| status := 404; body := BMessage "Record not found" |}.
Proof.
  destruct (cascade_answers_404_when_absent Sample.collab 99%N Sample.new_magazine
              Sample.world sample_quiet) as (Hfst & _).
  - vm_compute. reflexivity.
  - exact Hfst.
Defined.
